(** * taiko-client: coordination logic of the Prover and the Driver

    A shallow embedding of [prover/prover.go] and of the driver's
    [driver.go]: the prover's L1 cursor and dispatch state, the buffered
    channels it uses as notification slot and as counting semaphores, the
    retry loops, and the driver's status arithmetic.

    Conventions.
    - A Go [uint64] is a [Z]; every arithmetic operation of the source on it
      is written with its wrap-around ([U64.add], [U64.sub]).
    - A [*big.Int] is a [Z]; [BigInt.Uint64] is its method [Uint64()].
    - A buffered channel is a capacity and the list of buffered values.
    - Remote calls (L1 / L2 endpoints, contract reads, validator, proof
      submitters) are fields of an oracle record: the code only consumes
      their results.
    - A goroutine is an entry in a list of running jobs; the interleaving of
      goroutines with the event loop is a list of [action]s. *)

From Stdlib Require Import ZArith List Bool Lia Sorted PeanoNat.
Import ListNotations.

Local Open Scope Z_scope.

(** ** Machine integers *)

Module U64.
Definition modulus : Z := 2 ^ 64.

Definition wrap (x : Z) : Z := x mod modulus.

Definition in_range (x : Z) : Prop := 0 <= x < modulus.

(** [a + b] and [a - b] on [uint64]. *)
Definition add (a b : Z) : Z := wrap (a + b).
Definition sub (a b : Z) : Z := wrap (a - b).
End U64.

Module BigInt.
(** [Uint64()] of a [big.Int]: the low 64 bits of the magnitude. *)
Definition Uint64 (x : Z) : Z := U64.wrap (Z.abs x).
End BigInt.

(** ** Errors and results of fallible calls *)

(** A Go [error]. [Permanent] is [backoff.Permanent(err)], the wrapper the
    retry library recognises. *)
Inductive error : Type :=
| Plain (code : nat)
| Permanent (inner : error).

Inductive result (A : Type) : Type :=
| Ok (a : A)
| Fail (err : error).
Arguments Ok {A}.
Arguments Fail {A}.

(** ** Buffered channels *)

Module Chan.
Record t (A : Type) : Type := mk { cap : nat; buf : list A }.
Arguments mk {A}.
Arguments cap {A}.
Arguments buf {A}.

Section Ops.
Context {A : Type}.

(** [make(chan A, n)] *)
Definition make (n : nat) : t A := mk n [].

(** [len(c)] *)
Definition len (c : t A) : nat := length (buf c).

Definition full (c : t A) : bool := (cap c <=? len c)%nat.

(** [c <- x]. [None]: the send cannot complete in this state, the sender
    stays parked on it. With capacity zero a send needs a receiver that
    is already waiting; every receive on the channels modelled with
    capacity [MaxConcurrentProvingJobs] is made by a goroutine that was
    started after a send completed, so such a send never completes. *)
Definition send (c : t A) (x : A) : option (t A) :=
  if full c then None else Some (mk (cap c) (buf c ++ [x])).

(** [select { case c <- x: default: }] *)
Definition try_send (c : t A) (x : A) : t A :=
  match send c x with
  | Some c' => c'
  | None => c
  end.

(** [<-c]. [None]: nothing buffered, the receiver would wait. *)
Definition recv (c : t A) : option (A * t A) :=
  match buf c with
  | [] => None
  | x :: rest => Some (x, mk (cap c) rest)
  end.

Definition wf (c : t A) : Prop := (len c <= cap c)%nat.
End Ops.
End Chan.

(** ** Data model *)

(** [bindings.TaikoL1ClientBlockProposed]: the fields the prover reads.
    [Id] is a [*big.Int], [Raw_BlockNumber] a [uint64]. *)
Record BlockProposed : Type := mkBlockProposed {
  Id : Z;
  Raw_BlockNumber : Z;
  Raw_BlockHash : Z;
  Raw_TxIndex : Z
}.

(** [bindings.TaikoL1ClientBlockVerified] *)
Record BlockVerified : Type := mkBlockVerified {
  VerifiedId : Z;
  VerifiedRaw_BlockNumber : Z;
  VerifiedBlockHash : Z
}.

(** [proofProducer.ProofWithHeader], identified by its block id. *)
Record ProofWithHeader : Type := mkProof { BlockID : Z }.

(** The fields of [prover.Config] read by the code modelled here. *)
Record Config : Type := mkConfig {
  StartingBlockID : option Z;            (* *big.Int, nil = None *)
  MaxConcurrentProvingJobs : nat;        (* uint *)
  Dummy : bool;
  OnlyProveEvenNumberBlocks : bool;
  OnlyProveOddNumberBlocks : bool
}.

(** The result of [rpc.GetProtocolStateVariables] (all [uint64]). *)
Record StateVariables : Type := mkVars {
  GenesisHeight : Z;
  LatestVerifiedId : Z;
  LatestVerifiedHeight : Z;
  NextBlockId : Z
}.

(** [rawdb.L1Origin]: [L1BlockHeight] is a [*big.Int]. *)
Record L1Origin : Type := mkL1Origin {
  L1BlockHeight : Z;
  L2BlockHash : Z
}.

(** [txListValidator.InvalidTxListReason] *)
Inductive Hint : Type := HintOK | HintOther (reason : nat).

(** What the endpoints answer. One record is one snapshot: the answers a
    function gets during one run. *)
Record RPC : Type := mkRPC {
  WaitTillL2Synced : option error;
  GetProtocolStateVariables : result StateVariables;
  L1OriginByID : Z -> result L1Origin;
  WaitL1Origin : Z -> result L1Origin;
  HeaderByNumber_Hash : Z -> result Z;
  GetForkChoice_Prover : Z -> Z -> result Z;     (* id, parentHash -> fc.Prover *)
  TransactionInBlock_Data : Z -> Z -> result Z;  (* blockHash, txIndex -> tx.Data() *)
  ValidateTxList : Z -> Z -> result Hint
}.

(** The prover's state: cursor fields and channels. *)
Record Prover : Type := mkProver {
  cfg : Config;
  latestVerifiedL1Height : Z;
  lastHandledBlockID : Z;
  l1Current : Z;
  proveNotify : Chan.t unit;
  proveValidProofCh : Chan.t ProofWithHeader;
  proveInvalidProofCh : Chan.t ProofWithHeader;
  proposeConcurrencyGuard : Chan.t unit;
  submitProofConcurrencyGuard : Chan.t unit
}.

Definition set_l1Current (p : Prover) (h : Z) : Prover :=
  mkProver (cfg p) (latestVerifiedL1Height p) (lastHandledBlockID p) h
           (proveNotify p) (proveValidProofCh p) (proveInvalidProofCh p)
           (proposeConcurrencyGuard p) (submitProofConcurrencyGuard p).

Definition set_latestVerifiedL1Height (p : Prover) (h : Z) : Prover :=
  mkProver (cfg p) h (lastHandledBlockID p) (l1Current p)
           (proveNotify p) (proveValidProofCh p) (proveInvalidProofCh p)
           (proposeConcurrencyGuard p) (submitProofConcurrencyGuard p).

Definition set_lastHandledBlockID (p : Prover) (id : Z) : Prover :=
  mkProver (cfg p) (latestVerifiedL1Height p) id (l1Current p)
           (proveNotify p) (proveValidProofCh p) (proveInvalidProofCh p)
           (proposeConcurrencyGuard p) (submitProofConcurrencyGuard p).

Definition set_proveNotify (p : Prover) (c : Chan.t unit) : Prover :=
  mkProver (cfg p) (latestVerifiedL1Height p) (lastHandledBlockID p) (l1Current p)
           c (proveValidProofCh p) (proveInvalidProofCh p)
           (proposeConcurrencyGuard p) (submitProofConcurrencyGuard p).

Definition set_proveValidProofCh (p : Prover) (c : Chan.t ProofWithHeader) : Prover :=
  mkProver (cfg p) (latestVerifiedL1Height p) (lastHandledBlockID p) (l1Current p)
           (proveNotify p) c (proveInvalidProofCh p)
           (proposeConcurrencyGuard p) (submitProofConcurrencyGuard p).

Definition set_proveInvalidProofCh (p : Prover) (c : Chan.t ProofWithHeader) : Prover :=
  mkProver (cfg p) (latestVerifiedL1Height p) (lastHandledBlockID p) (l1Current p)
           (proveNotify p) (proveValidProofCh p) c
           (proposeConcurrencyGuard p) (submitProofConcurrencyGuard p).

Definition set_proposeConcurrencyGuard (p : Prover) (c : Chan.t unit) : Prover :=
  mkProver (cfg p) (latestVerifiedL1Height p) (lastHandledBlockID p) (l1Current p)
           (proveNotify p) (proveValidProofCh p) (proveInvalidProofCh p)
           c (submitProofConcurrencyGuard p).

Definition set_submitProofConcurrencyGuard (p : Prover) (c : Chan.t unit) : Prover :=
  mkProver (cfg p) (latestVerifiedL1Height p) (lastHandledBlockID p) (l1Current p)
           (proveNotify p) (proveValidProofCh p) (proveInvalidProofCh p)
           (proposeConcurrencyGuard p) c.

(** ** [initL1Current] *)

(** [func (p *Prover) initL1Current(startingBlockID *big.Int) error] *)
Definition initL1Current (rpc : RPC) (p : Prover) (startingBlockID : option Z)
  : Prover * option error :=
  match WaitTillL2Synced rpc with
  | Some err => (p, Some err)
  | None =>
      let lookup (id : Z) :=
        match L1OriginByID rpc id with
        | Fail err => (p, Some err)
        | Ok origin => (set_l1Current p (BigInt.Uint64 (L1BlockHeight origin)), None)
        end in
      match startingBlockID with
      | None =>
          match GetProtocolStateVariables rpc with
          | Fail err => (p, Some err)
          | Ok stateVars =>
              if LatestVerifiedId stateVars =? 0
              then (set_l1Current p (GenesisHeight stateVars), None)
              else lookup (LatestVerifiedId stateVars)
          end
      | Some id => lookup id
      end
  end.

(** ** The retry library *)

(** [backoff.BackOff]: the answer of the n-th call of [NextBackOff], a
    duration in seconds, or [None] for [backoff.Stop]. *)
Definition BackOff : Type := nat -> option Z.

(** [backoff.NewConstantBackOff(d)] never stops. *)
Definition NewConstantBackOff (d : Z) : BackOff := fun _ => Some d.

Record RetryRun (St : Type) : Type := mkRun {
  final : St;               (* state left by the last call of the operation *)
  retErr : option error;    (* what Retry returns *)
  calls : nat;              (* how often the operation ran *)
  waits : list Z            (* the timer waits between the calls, in order *)
}.
Arguments mkRun {St}.
Arguments final {St}.
Arguments retErr {St}.
Arguments calls {St}.
Arguments waits {St}.

Section Retry.
Context {St : Type}.
(** The operation closure; its first argument counts its invocations, so
    that a remote call inside it may answer differently each time. *)
Variable operation : nat -> St -> St * option error.
Variable b : BackOff.

(** [backoff.Retry(operation, b)] for a back-off that carries no context
    of its own: call the operation; stop on [nil], on a permanent error
    and on [backoff.Stop]; otherwise wait and call again. [None]: the
    loop is still running when the fuel is spent. *)
Fixpoint RetryLoop (fuel n : nat) (s : St) (ws : list Z) : option (RetryRun St) :=
  match fuel with
  | O => None
  | S fuel' =>
      let (s', r) := operation n s in
      match r with
      | None => Some (mkRun s' None (S n) ws)
      | Some (Permanent inner) => Some (mkRun s' (Some inner) (S n) ws)
      | Some err =>
          match b n with
          | None => Some (mkRun s' (Some err) (S n) ws)
          | Some d => RetryLoop fuel' (S n) s' (ws ++ [d])
          end
      end
  end.

Definition Retry (fuel : nat) (s : St) : option (RetryRun St) :=
  RetryLoop fuel 0%nat s [].
End Retry.

(** ** [InitFromConfig] *)

Definition chBufferSize : nat := Z.to_nat 204800.

(** What [InitFromConfig] meets outside the prover. *)
Record InitEnv : Type := mkInitEnv {
  NewClient : option error;
  GetConfig : option error;
  rpcAt : nat -> RPC;              (* the endpoints during the n-th attempt *)
  ctxErrAt : nat -> bool;          (* [ctx.Err() != nil] when it starts *)
  ctxErrAfter : option error;      (* [ctx.Err()] after the retry *)
  NewExponentialBackOff : BackOff;
  NewZkevmRpcdProducer : option error
}.

(** The zero value of the struct the caller hands in. *)
Definition zeroProver (c : Config) : Prover :=
  mkProver c 0 0 0 (Chan.make 0) (Chan.make 0) (Chan.make 0) (Chan.make 0) (Chan.make 0).

(** [func InitFromConfig(ctx, p, cfg) (err error)]. The error of the retried
    [initL1Current] is dropped, as in the source. *)
Definition InitFromConfig (env : InitEnv) (fuel : nat) (c : Config)
  : option (result Prover) :=
  match NewClient env with
  | Some err => Some (Fail err)
  | None =>
  match GetConfig env with
  | Some err => Some (Fail err)
  | None =>
      let p := zeroProver c in
      let p := set_proveValidProofCh p (Chan.make chBufferSize) in
      let p := set_proveInvalidProofCh p (Chan.make chBufferSize) in
      let p := set_proveNotify p (Chan.make 1) in
      match Retry (fun n q => if ctxErrAt env n then (q, None)
                              else initL1Current (rpcAt env n) q (StartingBlockID c))
                  (NewExponentialBackOff env) fuel p with
      | None => None
      | Some run =>
          match ctxErrAfter env with
          | Some err => Some (Fail err)
          | None =>
              let p := final run in
              let p := set_proposeConcurrencyGuard p
                         (Chan.make (MaxConcurrentProvingJobs c)) in
              let p := set_submitProofConcurrencyGuard p
                         (Chan.make (MaxConcurrentProvingJobs c)) in
              if Dummy c then Some (Ok p)
              else match NewZkevmRpcdProducer env with
                   | Some err => Some (Fail err)
                   | None => Some (Ok p)
                   end
          end
      end
  end
  end.

(** ** The event callback *)

(** [reqProving] of [eventLoop]: a send that never waits. *)
Definition reqProving (p : Prover) : Prover :=
  set_proveNotify p (Chan.try_send (proveNotify p) tt).

(** What a call of [onBlockProposed] does that is visible outside the
    prover's fields. *)
Inductive effect : Type :=
| CallEnd                          (* end() *)
| LogSkipOdd (id : Z)              (* "Skip a block with odd number" *)
| LogSkipEven (id : Z)             (* "Skip a block with even number" *)
| LogProposed (id : Z)             (* "Proposed block" *)
| Go (event : BlockProposed).      (* go func() { handleBlockProposedEvent() } *)

(** Lines 338-347: the send on the guard, the two assignments and the [go]
    statement. [None]: the guard is full, the send has not completed. *)
Definition dispatch (p : Prover) (event : BlockProposed) : option Prover :=
  match Chan.send (proposeConcurrencyGuard p) tt with
  | None => None
  | Some g =>
      let p := set_proposeConcurrencyGuard p g in
      let p := set_l1Current p (Raw_BlockNumber event) in
      let p := set_lastHandledBlockID p (BigInt.Uint64 (Id event)) in
      Some p
  end.

Record callback : Type := mkCallback {
  after : Prover;            (* the prover when the call returns or parks *)
  effects : list effect;     (* in program order *)
  parked : bool              (* true: waiting on the send of line 338 *)
}.

(** [func (p *Prover) onBlockProposed(ctx, event, end) error]; every path
    that returns, returns [nil]. *)
Definition onBlockProposed (p : Prover) (event : BlockProposed) : callback :=
  if (0 <? Chan.len (proveValidProofCh p))%nat || (0 <? Chan.len (proveInvalidProofCh p))%nat
  then mkCallback p [CallEnd] false
  else if BigInt.Uint64 (Id event) <=? lastHandledBlockID p
  then mkCallback p [] false
  else if OnlyProveEvenNumberBlocks (cfg p) && negb (BigInt.Uint64 (Id event) mod 2 =? 0)
  then mkCallback p [LogSkipOdd (Id event)] false
  else if OnlyProveOddNumberBlocks (cfg p) && (BigInt.Uint64 (Id event) mod 2 =? 0)
  then mkCallback p [LogSkipEven (Id event)] false
  else match dispatch p event with
       | Some p' => mkCallback p' [LogProposed (Id event); Go event] false
       | None => mkCallback p [LogProposed (Id event)] true
       end.

(** [func (p *Prover) onBlockVerified(ctx, event) error]; it returns [nil]. *)
Definition onBlockVerified (p : Prover) (event : BlockVerified) : Prover :=
  set_latestVerifiedL1Height p (VerifiedRaw_BlockNumber event).

(** ** The proving job *)

Inductive submitter : Type := ValidSubmitter | InvalidSubmitter.

(** [func (p *Prover) isBlockVerified(id *big.Int) (bool, error)] *)
Definition isBlockVerified (rpc : RPC) (id : Z) : result bool :=
  match GetProtocolStateVariables rpc with
  | Fail err => Fail err
  | Ok stateVars => Ok (BigInt.Uint64 id <=? LatestVerifiedId stateVars)
  end.

(** [func (p *Prover) NeedNewProof(id *big.Int) (bool, error)] *)
Definition NeedNewProof (rpc : RPC) (id : Z) : result bool :=
  let parentHash :=
    if id =? 1 then HeaderByNumber_Hash rpc 0
    else match WaitL1Origin rpc (id - 1) with
         | Fail err => Fail err
         | Ok parentL1Origin => Ok (L2BlockHash parentL1Origin)
         end in
  match parentHash with
  | Fail err => Fail err
  | Ok h =>
      match GetForkChoice_Prover rpc id h with
      | Fail err => Fail err
      | Ok fcProver => if negb (fcProver =? 0) then Ok false else Ok true
      end
  end.

Record jobRun : Type := mkJobRun {
  requested : option (submitter * BlockProposed);   (* the RequestProof call made *)
  jobErr : option error
}.

(** The closure [handleBlockProposedEvent] of [onBlockProposed]; the wrapping
    of errors in messages is left out. [requestErr] is what the submitter's
    [RequestProof] returns. *)
Definition handleBlockProposedEvent (rpc : RPC) (requestErr : submitter -> option error)
           (event : BlockProposed) : jobRun :=
  match isBlockVerified rpc (Id event) with
  | Fail err => mkJobRun None (Some err)
  | Ok true => mkJobRun None None
  | Ok false =>
  match NeedNewProof rpc (Id event) with
  | Fail err => mkJobRun None (Some err)
  | Ok false => mkJobRun None None
  | Ok true =>
  match TransactionInBlock_Data rpc (Raw_BlockHash event) (Raw_TxIndex event) with
  | Fail err => mkJobRun None (Some err)
  | Ok data =>
  match ValidateTxList rpc (Id event) data with
  | Fail err => mkJobRun None (Some err)
  | Ok HintOK => mkJobRun (Some (ValidSubmitter, event)) (requestErr ValidSubmitter)
  | Ok _ => mkJobRun (Some (InvalidSubmitter, event)) (requestErr InvalidSubmitter)
  end end end end.

(** ** Proof submission *)

(** What the submitters answer: the result of the n-th call of
    [SubmitProof] on a submitter, and whether the prover's context is
    cancelled when that call starts. *)
Record SubmitEnv : Type := mkSubmitEnv {
  SubmitProof : submitter -> nat -> ProofWithHeader -> bool -> option error;
  ctxCancelled : nat -> bool
}.

(** The goroutine started by [submitProofOp] (lines 356-379), without the
    deferred receive. The oracle branch retries with
    [backoff.NewConstantBackOff(12*time.Second)]; the closure it retries
    contains the [SubmitProof] call and nothing else. *)
Definition submitJob (c : Config) (env : SubmitEnv) (fuel : nat)
           (proofWithHeader : ProofWithHeader) (isValidProof : bool)
  : option (RetryRun unit) :=
  if isValidProof then
    if Dummy c then
      Retry (fun n s => (s, SubmitProof env ValidSubmitter n proofWithHeader true))
            (NewConstantBackOff 12) fuel tt
    else
      Some (mkRun tt (SubmitProof env ValidSubmitter 0%nat proofWithHeader false) 1%nat [])
  else
    Some (mkRun tt (SubmitProof env InvalidSubmitter 0%nat proofWithHeader false) 1%nat []).

(** Line 354 of [submitProofOp]: the send on the submission guard. *)
Definition acquireSubmit (p : Prover) : option Prover :=
  match Chan.send (submitProofConcurrencyGuard p) tt with
  | None => None
  | Some g => Some (set_submitProofConcurrencyGuard p g)
  end.

(** ** The prover and its goroutines *)

(** Where the event-loop goroutine stands. *)
Inductive loop_state : Type :=
| Running
| ParkedPropose (event : BlockProposed)                       (* at line 338 *)
| ParkedSubmit (pwh : ProofWithHeader) (isValidProof : bool). (* at line 354 *)

Record World : Type := mkWorld {
  prover : Prover;
  loop : loop_state;
  provingJobs : list BlockProposed;               (* inside handleBlockProposedEvent *)
  submitJobs : list (ProofWithHeader * bool);     (* inside the submission goroutine *)
  trace : list effect                             (* effects so far, oldest first *)
}.

Inductive action : Type :=
| Propose (event : BlockProposed)   (* the iterator calls onBlockProposed *)
| Unpark                            (* the parked send of the event loop completes *)
| ProvingJobExit (i : nat)          (* job i runs its deferred receive on the guard *)
| ProofProduced (isValidProof : bool) (pwh : ProofWithHeader)
                                    (* a submitter sends on its result channel *)
| SelectProof (isValidProof : bool) (* eventLoop: a result channel case, submitProofOp *)
| SubmitJobExit (i : nat)           (* submission job i runs its deferred receive *)
| Trigger                           (* eventLoop: blockProposedCh or ticker case *)
| SelectNotify                      (* eventLoop: the proveNotify case *)
| Verified (event : BlockVerified). (* eventLoop: the blockVerifiedCh case *)

Definition remove_nth {A : Type} (i : nat) (l : list A) : list A :=
  firstn i l ++ skipn (S i) l.

Definition resultCh (p : Prover) (isValidProof : bool) : Chan.t ProofWithHeader :=
  if isValidProof then proveValidProofCh p else proveInvalidProofCh p.

Definition set_resultCh (p : Prover) (isValidProof : bool) (c : Chan.t ProofWithHeader)
  : Prover :=
  if isValidProof then set_proveValidProofCh p c else set_proveInvalidProofCh p c.

(** [func (p *Prover) submitProofOp(ctx, proofWithHeader, isValidProof)] on
    the event loop: take a token, start the goroutine; park when the guard is
    full. *)
Definition submitProofOp (w : World) (p : Prover) (pwh : ProofWithHeader)
           (isValidProof : bool) : World :=
  match acquireSubmit p with
  | Some p' => mkWorld p' Running (provingJobs w)
                       (submitJobs w ++ [(pwh, isValidProof)]) (trace w)
  | None => mkWorld p (ParkedSubmit pwh isValidProof) (provingJobs w)
                    (submitJobs w) (trace w)
  end.

(** The events for which a proving job was started, in starting order. *)
Fixpoint dispatched (tr : list effect) : list BlockProposed :=
  match tr with
  | [] => []
  | Go event :: rest => event :: dispatched rest
  | _ :: rest => dispatched rest
  end.

(** One step of one goroutine. [None]: the step cannot be taken in this
    state. *)
Definition step (w : World) (a : action) : option World :=
  let p := prover w in
  match a, loop w with
  | Propose event, Running =>
      let r := onBlockProposed p event in
      Some (mkWorld (after r)
                    (if parked r then ParkedPropose event else Running)
                    (provingJobs w ++ dispatched (effects r))
                    (submitJobs w)
                    (trace w ++ effects r))
  | Unpark, ParkedPropose event =>
      match dispatch p event with
      | Some p' => Some (mkWorld p' Running (provingJobs w ++ [event])
                                 (submitJobs w) (trace w ++ [Go event]))
      | None => None
      end
  | Unpark, ParkedSubmit pwh isValidProof =>
      match acquireSubmit p with
      | Some p' => Some (mkWorld p' Running (provingJobs w)
                                 (submitJobs w ++ [(pwh, isValidProof)]) (trace w))
      | None => None
      end
  | ProvingJobExit i, _ =>
      if (i <? length (provingJobs w))%nat then
        match Chan.recv (proposeConcurrencyGuard p) with
        | Some (_, g) => Some (mkWorld (set_proposeConcurrencyGuard p g) (loop w)
                                       (remove_nth i (provingJobs w))
                                       (submitJobs w) (trace w))
        | None => None
        end
      else None
  | SubmitJobExit i, _ =>
      if (i <? length (submitJobs w))%nat then
        match Chan.recv (submitProofConcurrencyGuard p) with
        | Some (_, g) => Some (mkWorld (set_submitProofConcurrencyGuard p g) (loop w)
                                       (provingJobs w)
                                       (remove_nth i (submitJobs w)) (trace w))
        | None => None
        end
      else None
  | ProofProduced isValidProof pwh, _ =>
      match Chan.send (resultCh p isValidProof) pwh with
      | Some c => Some (mkWorld (set_resultCh p isValidProof c) (loop w)
                                (provingJobs w) (submitJobs w) (trace w))
      | None => None
      end
  | SelectProof isValidProof, Running =>
      match Chan.recv (resultCh p isValidProof) with
      | Some (pwh, c) =>
          Some (submitProofOp w (set_resultCh p isValidProof c) pwh isValidProof)
      | None => None
      end
  | Trigger, Running =>
      Some (mkWorld (reqProving p) Running (provingJobs w) (submitJobs w) (trace w))
  | SelectNotify, Running =>
      match Chan.recv (proveNotify p) with
      | Some (_, c) => Some (mkWorld (set_proveNotify p c) Running (provingJobs w)
                                     (submitJobs w) (trace w))
      | None => None
      end
  | Verified event, Running =>
      Some (mkWorld (onBlockVerified p event) Running (provingJobs w)
                    (submitJobs w) (trace w))
  | _, _ => None
  end.

(** A schedule; a step that cannot be taken is left out of it. *)
Fixpoint run (w : World) (sched : list action) : World :=
  match sched with
  | [] => w
  | a :: rest =>
      match step w a with
      | Some w' => run w' rest
      | None => run w rest
      end
  end.

(** The prover as [Start] finds it: no goroutine yet, nothing dispatched. *)
Definition start (p : Prover) : World := mkWorld p Running [] [] [].

Definition ids (l : list BlockProposed) : list Z :=
  map (fun event => BigInt.Uint64 (Id event)) l.

(** The [RequestProof] calls of the jobs, job by job in starting order; job
    number n sees the endpoints as [rpcOf n]. *)
Fixpoint requestProofCalls (rpcOf : nat -> RPC) (requestErr : submitter -> option error)
         (n : nat) (jobs : list BlockProposed) : list (submitter * BlockProposed) :=
  match jobs with
  | [] => []
  | event :: rest =>
      match requested (handleBlockProposedEvent (rpcOf n) requestErr event) with
      | Some call => call :: requestProofCalls rpcOf requestErr (S n) rest
      | None => requestProofCalls rpcOf requestErr (S n) rest
      end
  end.

(** ** [proveOp] and the event iterator *)

(** Modelled from the spec: the event iterator ([eventIterator], package
    [pkg/chain_iterator/event_iterator], is not among the sources). Section
    4.3: it "reads events from [StartHeight] up to the current chain head in
    L1-height-ascending, then log-index-ascending order, invoking
    [OnEvent(ctx, event, end)] for each". [chain] is the list of the
    [BlockProposed] events on L1 up to the head, in that order. *)
Definition eventsFrom (chain : list BlockProposed) (startHeight : Z)
  : list BlockProposed :=
  filter (fun event => startHeight <=? Raw_BlockNumber event) chain.

Definition calledEnd (es : list effect) : bool :=
  existsb (fun x => match x with CallEnd => true | _ => false end) es.

(** Modelled from the spec: [Iter()] of the event iterator (same package).
    Section 4.3: "The callback may invoke [end()] to stop iteration early";
    "Iteration is single-threaded across events". A callback parked on the
    guard suspends the iteration; the suspended world is returned. *)
Fixpoint Iter (w : World) (events : list BlockProposed) : World :=
  match events with
  | [] => w
  | event :: rest =>
      match step w (Propose event) with
      | None => w
      | Some w' =>
          if calledEnd (effects (onBlockProposed (prover w) event)) then w'
          else match loop w' with
               | Running => Iter w' rest
               | _ => w'
               end
      end
  end.

(** [func (p *Prover) proveOp() error]: an iterator from [p.l1Current] with
    [p.onBlockProposed] as callback, run once. *)
Definition proveOp (chain : list BlockProposed) (w : World) : World :=
  Iter w (eventsFrom chain (l1Current (prover w))).

(** ** The driver *)

Module Driver.
(** [RetryDelay = 10 * time.Second] *)
Definition RetryDelay : Z := 10.

Record Driver : Type := mkDriver {
  l1HeadCh : Chan.t Z;
  syncNotify : Chan.t unit
}.

Record InitEnv : Type := mkInitEnv {
  NewClient : option error;
  NewState : option error;
  PeerCount : option error;
  NewChainSyncer : option error
}.

(** [func InitFromConfig(ctx, d, cfg) (err error)] *)
Definition InitFromConfig (env : InitEnv) : result Driver :=
  let d := mkDriver (Chan.make 1024) (Chan.make 1) in
  match NewClient env with
  | Some err => Fail err
  | None =>
  match NewState env with
  | Some err => Fail err
  | None =>
  match PeerCount env with
  | Some err => Fail err
  | None =>
  match NewChainSyncer env with
  | Some err => Fail err
  | None => Ok d
  end end end end.

(** [reqSync] of [eventLoop] *)
Definition reqSync (d : Driver) : Driver :=
  mkDriver (l1HeadCh d) (Chan.try_send (syncNotify d) tt).

(** The cases of the [select] of [eventLoop] that touch [syncNotify]. *)
Inductive action : Type :=
| HeadArrives (h : Z)   (* the L1 heads feed sends on d.l1HeadCh *)
| L1Head                (* case <-d.l1HeadCh: reqSync() *)
| SelectSync.           (* case <-d.syncNotify: doSyncWithBackoff() *)

Definition step (d : Driver) (a : action) : option Driver :=
  match a with
  | HeadArrives h =>
      match Chan.send (l1HeadCh d) h with
      | Some c => Some (mkDriver c (syncNotify d))
      | None => None
      end
  | L1Head =>
      match Chan.recv (l1HeadCh d) with
      | Some (_, c) => Some (reqSync (mkDriver c (syncNotify d)))
      | None => None
      end
  | SelectSync =>
      match Chan.recv (syncNotify d) with
      | Some (_, c) => Some (mkDriver (l1HeadCh d) c)
      | None => None
      end
  end.

(** A schedule; a step that cannot be taken is left out of it. *)
Fixpoint run (d : Driver) (sched : list action) : Driver :=
  match sched with
  | [] => d
  | a :: rest =>
      match step d a with
      | Some d' => run d' rest
      | None => run d rest
      end
  end.

(** The "Protocol status" log record. *)
Record ProtocolStatus : Type := mkStatus {
  latestVerifiedId : Z;
  latestVerifiedHeight : Z;
  pendingBlocks : Z;
  availableSlots : Z
}.

Inductive logLine : Type :=
| LogError (err : error)
| LogStatus (st : ProtocolStatus).

(** The arguments of [log.Info] at lines 269-275. *)
Definition status (maxNumBlocks : Z) (vars : StateVariables) : ProtocolStatus :=
  mkStatus (LatestVerifiedId vars)
           (LatestVerifiedHeight vars)
           (U64.sub (U64.sub (NextBlockId vars) (LatestVerifiedId vars)) 1)
           (U64.sub (U64.add (LatestVerifiedId vars) maxNumBlocks) (NextBlockId vars)).

(** The closure retried at the start of [reportProtocolStatus]: it stores
    [configs.MaxNumBlocks.Uint64()] in the captured variable.
    [getConfig n]: the [MaxNumBlocks] answered by the n-th [GetConfig]. *)
Definition readMaxNumBlocks (getConfig : nat -> result Z) (n : nat) (maxNumBlocks : Z)
  : Z * option error :=
  match getConfig n with
  | Fail err => (maxNumBlocks, Some err)
  | Ok m => (BigInt.Uint64 m, None)
  end.

(** One tick of the loop of [reportProtocolStatus]. *)
Definition onTick (maxNumBlocks : Z) (vars : result StateVariables) : logLine :=
  match vars with
  | Fail err => LogError err
  | Ok v => LogStatus (status maxNumBlocks v)
  end.

Record report : Type := mkReport {
  getConfigCalls : nat;
  retryWaits : list Z;
  logged : list logLine
}.

(** [func (d *Driver) reportProtocolStatus()]. [ticks]: the answers of
    [GetProtocolStateVariables] at the ticks of the 30 s ticker that come
    before the context is done. *)
Definition reportProtocolStatus (getConfig : nat -> result Z) (fuel : nat)
           (ticks : list (result StateVariables)) : option report :=
  match Retry (readMaxNumBlocks getConfig) (NewConstantBackOff RetryDelay) fuel 0 with
  | None => None
  | Some r =>
      match retErr r with
      | Some err => Some (mkReport (calls r) (waits r) [LogError err])
      | None => Some (mkReport (calls r) (waits r) (map (onTick (final r)) ticks))
      end
  end.
End Driver.

(** ** Specification-side definitions and scenarios *)

(** Where the cursor comes from, case by case: [CursorSource rpc start h]
    reads "with starting block id [start] and the endpoints answering as
    [rpc], the L1 height to start from is [h]". *)
Inductive CursorSource (rpc : RPC) : option Z -> Z -> Prop :=
| FromGenesis stateVars :
    GetProtocolStateVariables rpc = Ok stateVars ->
    LatestVerifiedId stateVars = 0 ->
    CursorSource rpc None (GenesisHeight stateVars)
| FromLatestVerified stateVars origin :
    GetProtocolStateVariables rpc = Ok stateVars ->
    LatestVerifiedId stateVars <> 0 ->
    L1OriginByID rpc (LatestVerifiedId stateVars) = Ok origin ->
    U64.in_range (L1BlockHeight origin) ->
    CursorSource rpc None (L1BlockHeight origin)
| FromStartingBlockID id origin :
    L1OriginByID rpc id = Ok origin ->
    U64.in_range (L1BlockHeight origin) ->
    CursorSource rpc (Some id) (L1BlockHeight origin).

(** Scenarios (a) and (b) of the specification. *)
Definition rpc_with (vars : result StateVariables) (origin : Z -> result L1Origin) : RPC :=
  mkRPC None vars origin origin (fun _ => Ok 0) (fun _ _ => Ok 0) (fun _ _ => Ok 0)
        (fun _ _ => Ok HintOK).

Definition scenario_a : RPC :=
  rpc_with (Ok (mkVars 100 0 0 1)) (fun _ => Fail (Plain 0)).

Definition scenario_b : RPC :=
  rpc_with (Ok (mkVars 100 7 500 9))
           (fun id => if id =? 7 then Ok (mkL1Origin 512 0) else Fail (Plain 0)).

Definition plainConfig : Config := mkConfig None 2 false false false.

(** The notification slot: one place, at most one token in it. *)
Definition NotifySlot (c : Chan.t unit) : Prop :=
  Chan.cap c = 1%nat /\ (Chan.len c <= 1)%nat.

(** The guards as counting semaphores of [n] tokens: one token per running
    job. *)
Definition GuardsCount (n : nat) (w : World) : Prop :=
  Chan.cap (proposeConcurrencyGuard (prover w)) = n /\
  Chan.cap (submitProofConcurrencyGuard (prover w)) = n /\
  Chan.len (proposeConcurrencyGuard (prover w)) = length (provingJobs w) /\
  Chan.len (submitProofConcurrencyGuard (prover w)) = length (submitJobs w) /\
  (length (provingJobs w) <= n)%nat /\
  (length (submitJobs w) <= n)%nat.

(** An environment in which [InitFromConfig] succeeds at the first attempt. *)
Definition quietInit (rpc : RPC) : InitEnv :=
  mkInitEnv None None (fun _ => rpc) (fun _ => false) None (fun _ => None) None.

Definition initialised (rpc : RPC) (c : Config) : Prover :=
  match InitFromConfig (quietInit rpc) 1 c with
  | Some (Ok p) => p
  | _ => zeroProver c
  end.

Definition quietDriverInit : Driver.InitEnv := Driver.mkInitEnv None None None None.

Definition initialisedDriver : Driver.Driver :=
  match Driver.InitFromConfig quietDriverInit with
  | Ok d => d
  | Fail _ => Driver.mkDriver (Chan.make 0) (Chan.make 0)
  end.

(** Proposal events with id [n], proposed in L1 block [h]. *)
Definition proposal (n h : Z) : BlockProposed := mkBlockProposed n h 0 0.

(** The prover ready for scenario (c): nothing pending, [lastHandledBlockID]
    at 4. *)
Definition handledUpTo4 (c : Config) : Prover :=
  set_lastHandledBlockID (initialised scenario_a c) 4.

(** What the parity switches of a configuration let through. *)
Definition passesParity (c : Config) (event : BlockProposed) : Prop :=
  (OnlyProveEvenNumberBlocks c = true -> Z.even (Id event) = true) /\
  (OnlyProveOddNumberBlocks c = true -> Z.odd (Id event) = true).

(** What holds of every world reached from the prover [p0]. *)
Record DispatchInv (p0 : Prover) (w : World) : Prop := mkDispatchInv {
  inv_cfg : cfg (prover w) = cfg p0;
  inv_sorted : StronglySorted Z.lt (ids (dispatched (trace w)));
  inv_bounds : Forall (fun i => lastHandledBlockID p0 < i <= lastHandledBlockID (prover w))
                      (ids (dispatched (trace w)));
  inv_mono : lastHandledBlockID p0 <= lastHandledBlockID (prover w);
  inv_parity : Forall (passesParity (cfg p0)) (dispatched (trace w));
  inv_parked : forall event, loop w = ParkedPropose event ->
                 lastHandledBlockID (prover w) < BigInt.Uint64 (Id event) /\
                 passesParity (cfg p0) event
}.

(** A prover that proves even blocks only, and one with a valid proof
    waiting to be submitted. *)
Definition evenOnlyConfig : Config := mkConfig None 4 false true false.

Definition oddOnlyConfig : Config := mkConfig None 4 false false true.

Definition withPendingProof (p : Prover) : Prover :=
  set_proveValidProofCh p (Chan.mk chBufferSize [mkProof 3]).

(** Two proposals in consecutive L1 blocks, and an even-only prover whose
    cursor stands at the first of them. *)
Definition twoBlocks : list BlockProposed := [proposal 5 100; proposal 6 101].

Definition evenOnlyAt100 : Prover := set_l1Current (handledUpTo4 evenOnlyConfig) 100.

(** The oracle branch of the submission job as the specification words it
    ("until success or context cancel"): the retried
    closure returns at once when the context is cancelled, the way the
    closure retried by [InitFromConfig] does. *)
Definition submitJobAsSpecified (env : SubmitEnv) (fuel : nat)
           (proofWithHeader : ProofWithHeader) : option (RetryRun unit) :=
  Retry (fun n s => if ctxCancelled env n then (s, None)
                    else (s, SubmitProof env ValidSubmitter n proofWithHeader true))
        (NewConstantBackOff 12) fuel tt.

Definition oracleConfig : Config := mkConfig None 2 true false false.

(** The context is cancelled before the second attempt; the submitter fails
    twice and then succeeds. *)
Definition cancelledThenAccepted : SubmitEnv :=
  mkSubmitEnv (fun _ n _ _ => if (n <? 2)%nat then Some (Plain 1) else None)
              (fun n => (1 <=? n)%nat).

(** The context is cancelled and the submitter answers every call with an
    error. *)
Definition cancelledAndFailing : SubmitEnv :=
  mkSubmitEnv (fun _ _ _ _ => Some (Plain 1)) (fun _ => true).

(** An error the retry library retries on. *)
Definition retried (r : option error) : Prop :=
  match r with
  | Some (Plain _) => True
  | _ => False
  end.

(** [GetConfig] fails twice before answering [MaxNumBlocks = 2048]; the
    protocol state at two ticks, with an RPC failure in between. *)
Definition configAfterTwoFailures (n : nat) : result Z :=
  if (n <? 2)%nat then Fail (Plain 1) else Ok 2048.

Definition twoTicks : list (result StateVariables) :=
  [Ok (mkVars 100 7 512 10); Fail (Plain 2); Ok (mkVars 100 9 600 10)].

(** ** Further code: metrics, driver synchronisation, retry bookkeeping *)

(** [int64(x)] for a [uint64] [x]: the same 64 bits read as two's
    complement. *)
Definition Int64 (x : Z) : Z := if x <? 2 ^ 63 then x else x - 2 ^ 64.

(** One tick of the metrics goroutine of the prover's [eventLoop] (lines
    206-221): on a failed read an error is logged and the loop continues,
    otherwise [ProverPendingBlocksGauge] is updated. *)
Inductive metricsLine : Type :=
| MetricsError (err : error)
| PendingBlocksGauge (v : Z).

Definition pendingBlocksMetric (vars : result StateVariables) : metricsLine :=
  match vars with
  | Fail err => MetricsError err
  | Ok v => PendingBlocksGauge
              (Int64 (U64.sub (U64.sub (NextBlockId v) (LatestVerifiedId v)) 1))
  end.

Module DriverSync.
(** What [doSync] meets at its n-th call inside one retry: whether the
    context is cancelled, the L1 head the state holds, and what the chain
    syncer answers for a head. *)
Record SyncEnv : Type := mkSyncEnv {
  ctxErr : nat -> bool;
  GetL1Head : nat -> Z;
  Sync : nat -> Z -> option error
}.

(** [func (d *Driver) doSync() error]. The state threaded through is the
    list of heads handed to [l2ChainSyncer.Sync] so far. *)
Definition doSync (env : SyncEnv) (n : nat) (synced : list Z) : list Z * option error :=
  if ctxErr env n then (synced, None)
  else
    let l1Head := GetL1Head env n in
    (synced ++ [l1Head], Sync env n l1Head).

(** [doSyncWithBackoff] of the driver's [eventLoop]:
    [backoff.Retry(d.doSync, exponentialBackoff)]. *)
Definition doSyncWithBackoff (env : SyncEnv) (exponentialBackoff : BackOff) (fuel : nat)
  : option (RetryRun (list Z)) :=
  Retry (doSync env) exponentialBackoff fuel [].
End DriverSync.

(** The state after the first [k] calls of a retried operation, the first of
    them being call number [n]. *)
Fixpoint iterate_op {St : Type} (operation : nat -> St -> St * option error)
         (n k : nat) (s : St) : St :=
  match k with
  | O => s
  | S k' => iterate_op operation (S n) k' (fst (operation n s))
  end.

(** The waits a back-off hands out at calls [n], ..., [n + k - 1]. *)
Definition waitsOf (b : BackOff) (n k : nat) : list Z :=
  flat_map (fun i => match b i with Some d => [d] | None => [] end) (seq n k).

(** What [backoff.Retry] returns for the error that ended it. *)
Definition retErrOf (r : option error) : option error :=
  match r with
  | Some (Permanent inner) => Some inner
  | _ => r
  end.

(** A schedule in which the event loop never takes the [proveNotify] token. *)
Definition noSelectNotify (sched : list action) : bool :=
  forallb (fun a => match a with SelectNotify => false | _ => true end) sched.

(** A schedule of the driver in which the event loop never takes the
    [syncNotify] token. *)
Definition noSelectSync (sched : list Driver.action) : bool :=
  forallb (fun a => match a with Driver.SelectSync => false | _ => true end) sched.

(** The last event dispatched, if any. *)
Definition lastDispatched (w : World) : option BlockProposed :=
  match rev (dispatched (trace w)) with
  | [] => None
  | event :: _ => Some event
  end.

(** Endpoints on which L2 never gets synced. *)
Definition neverSynced : RPC :=
  mkRPC (Some (Plain 3)) (Fail (Plain 0)) (fun _ => Fail (Plain 0)) (fun _ => Fail (Plain 0))
        (fun _ => Fail (Plain 0)) (fun _ _ => Fail (Plain 0)) (fun _ _ => Fail (Plain 0))
        (fun _ _ => Fail (Plain 0)).

(** Initialisation against [neverSynced] with a back-off that stops at its
    third call. *)
Definition givingUpInit : InitEnv :=
  mkInitEnv None None (fun _ => neverSynced) (fun _ => false) None
            (fun n => if (n <? 2)%nat then Some 1 else None) None.

(** Initialisation against [neverSynced] with the context cancelled when the
    third attempt starts; the back-off itself would never stop. *)
Definition cancelledInit : InitEnv :=
  mkInitEnv None None (fun _ => neverSynced) (fun n => (2 <=? n)%nat) (Some (Plain 9))
            (fun _ => Some 1) None.

(** A chain syncer that fails twice, with the L1 head moving on meanwhile. *)
Definition flakySync : DriverSync.SyncEnv :=
  DriverSync.mkSyncEnv (fun _ => false) (fun n => 100 + Z.of_nat n)
                       (fun n _ => if (n <? 2)%nat then Some (Plain 4) else None).

(** The same syncer failing for ever, with the context cancelled when the
    third call starts. *)
Definition cancelledSync : DriverSync.SyncEnv :=
  DriverSync.mkSyncEnv (fun n => (2 <=? n)%nat) (fun n => 100 + Z.of_nat n)
                       (fun _ _ => Some (Plain 4)).

(** Endpoints for a job on block 9: latest verified id 7, parent block 8
    known to L2, no proof in the fork choice, and a validator that rejects
    the transaction list. *)
Definition rejectingValidator : RPC :=
  mkRPC None (Ok (mkVars 100 7 500 12)) (fun _ => Fail (Plain 0))
        (fun id => if id =? 8 then Ok (mkL1Origin 480 88) else Fail (Plain 0))
        (fun _ => Ok 1)
        (fun id parent => if (id =? 9) && (parent =? 88) then Ok 0 else Ok 5)
        (fun _ _ => Ok 77)
        (fun _ _ => Ok (HintOther 2)).

(** A configuration with no place in either guard. *)
Definition noPlaceConfig : Config := mkConfig None 0 false false false.

(** A configuration with one place in each guard. *)
Definition onePlaceConfig : Config := mkConfig None 1 false false false.

(** The driver after its event loop has handled the oldest buffered head. *)
Definition mkDriverAfterHead (d : Driver.Driver) : Driver.Driver :=
  match Driver.step d Driver.L1Head with
  | Some d' => d'
  | None => d
  end.

(** A schedule in which every proposal delivered lies at or above the L1
    height [h]. *)
Definition proposalsFrom (h : Z) (sched : list action) : Prop :=
  Forall (fun a => match a with
                   | Propose event => h <= Raw_BlockNumber event
                   | _ => True
                   end) sched.





(** Initialisation during which L2 is not synced for two attempts and then
    answers as in scenario (b). *)
Definition syncedAtThird : InitEnv :=
  mkInitEnv None None (fun n => if (n <? 2)%nat then neverSynced else scenario_b)
            (fun _ => false) None (fun _ => Some 1) None.

(** * Properties *)

(** ** Machine integers *)

Lemma U64_wrap_in_range x : U64.in_range (U64.wrap x).
Proof. unfold U64.in_range, U64.wrap, U64.modulus. apply Z.mod_pos_bound. lia. Qed.

Lemma U64_wrap_small x : U64.in_range x -> U64.wrap x = x.
Proof. unfold U64.in_range, U64.wrap. intros H. now apply Z.mod_small. Qed.

Lemma Uint64_in_range x : U64.in_range (BigInt.Uint64 x).
Proof. apply U64_wrap_in_range. Qed.

Lemma Uint64_small x : U64.in_range x -> BigInt.Uint64 x = x.
Proof.
  intros H. unfold BigInt.Uint64. rewrite Z.abs_eq by (destruct H; assumption).
  now apply U64_wrap_small.
Qed.

(** The low word keeps the parity of the number. *)
Lemma Uint64_parity x : BigInt.Uint64 x mod 2 = x mod 2.
Proof.
  unfold BigInt.Uint64, U64.wrap, U64.modulus.
  rewrite Z.mod_mod_divide by (exists (2 ^ 63); reflexivity).
  destruct (Z.abs_spec x) as [[_ ->] | [_ ->]]; [reflexivity|].
  replace (- x) with (x + (- x) * 2) by lia.
  rewrite Z.mod_add by lia. reflexivity.
Qed.

(** ** [initL1Current] *)

(** C2. Once L2 is reported synced, [initL1Current] returns [nil] and leaves
    the prover with [l1Current] set, and nothing else changed: to the
    protocol's [GenesisHeight] when no starting block id is configured and
    [LatestVerifiedId] is 0; otherwise to the [L1BlockHeight] of the
    L1Origin of the latest verified id (no starting id configured) or of the
    configured starting id. *)
Theorem initL1Current_sets_cursor (rpc : RPC) (p : Prover) (start : option Z) (h : Z) :
  WaitTillL2Synced rpc = None ->
  CursorSource rpc start h ->
  initL1Current rpc p start = (set_l1Current p h, None) /\
  l1Current (fst (initL1Current rpc p start)) = h.
Proof.
  intros Hsync Hsrc.
  assert (E : initL1Current rpc p start = (set_l1Current p h, None)).
  { unfold initL1Current. rewrite Hsync.
    destruct Hsrc as [sv Hv Hz | sv o Hv Hnz Ho Hr | id o Ho Hr].
    - rewrite Hv, Hz. reflexivity.
    - rewrite Hv. destruct (Z.eqb_spec (LatestVerifiedId sv) 0) as [e | _]; [contradiction|].
      rewrite Ho, Uint64_small by assumption. reflexivity.
    - rewrite Ho, Uint64_small by assumption. reflexivity. }
  rewrite E. split; reflexivity.
Qed.

Lemma initL1Current_sets_cursor_witness :
  l1Current (fst (initL1Current scenario_a (zeroProver plainConfig) None)) = 100 /\
  l1Current (fst (initL1Current scenario_b (zeroProver plainConfig) None)) = 512.
Proof.
  split.
  - apply (initL1Current_sets_cursor scenario_a (zeroProver plainConfig) None 100 eq_refl).
    exact (FromGenesis scenario_a (mkVars 100 0 0 1) eq_refl eq_refl).
  - apply (initL1Current_sets_cursor scenario_b (zeroProver plainConfig) None 512 eq_refl).
    refine (FromLatestVerified scenario_b (mkVars 100 7 500 9) (mkL1Origin 512 0)
              eq_refl _ eq_refl _).
    + discriminate.
    + unfold U64.in_range, U64.modulus. simpl. lia.
Defined.

(** ** Channels *)

Section ChanFacts.
Context {A : Type}.
Implicit Types (c : Chan.t A) (x : A).

Lemma send_Some c x c' :
  Chan.send c x = Some c' ->
  (Chan.len c < Chan.cap c)%nat /\ Chan.cap c' = Chan.cap c /\
  Chan.len c' = S (Chan.len c).
Proof.
  unfold Chan.send, Chan.full, Chan.len.
  destruct (Nat.leb_spec (Chan.cap c) (length (Chan.buf c))); [discriminate|].
  intros [= <-]. simpl. rewrite length_app. simpl. lia.
Qed.

Lemma send_None c x :
  Chan.send c x = None -> (Chan.cap c <= Chan.len c)%nat.
Proof.
  unfold Chan.send, Chan.full.
  destruct (Nat.leb_spec (Chan.cap c) (Chan.len c)); [lia | discriminate].
Qed.

Lemma recv_Some c x c' :
  Chan.recv c = Some (x, c') ->
  Chan.cap c' = Chan.cap c /\ Chan.len c = S (Chan.len c').
Proof.
  unfold Chan.recv, Chan.len. destruct (Chan.buf c); [discriminate|].
  intros [= <- <-]. simpl. auto.
Qed.

Lemma try_send_cap c x : Chan.cap (Chan.try_send c x) = Chan.cap c.
Proof.
  unfold Chan.try_send. destruct (Chan.send c x) eqn:E; [|reflexivity].
  now apply send_Some in E.
Qed.

(** A send with [default] on a full channel changes nothing. *)
Lemma try_send_full c x :
  (Chan.cap c <= Chan.len c)%nat -> Chan.try_send c x = c.
Proof.
  intros H. unfold Chan.try_send. destruct (Chan.send c x) eqn:E; [|reflexivity].
  apply send_Some in E. lia.
Qed.

Lemma try_send_wf c x : Chan.wf c -> Chan.wf (Chan.try_send c x).
Proof.
  unfold Chan.wf, Chan.try_send. intros H.
  destruct (Chan.send c x) eqn:E; [|assumption].
  apply send_Some in E. lia.
Qed.

(** On a one-slot channel the token is there afterwards, whatever was
    there before. *)
Lemma try_send_slot c x :
  Chan.cap c = 1%nat -> Chan.wf c -> Chan.len (Chan.try_send c x) = 1%nat.
Proof.
  unfold Chan.wf, Chan.try_send. intros Hc H.
  destruct (Chan.send c x) eqn:E.
  - apply send_Some in E. lia.
  - apply send_None in E. lia.
Qed.
End ChanFacts.

(** ** Steps of the prover *)

(** Case analysis on a step that was taken. *)
Ltac step_cases H :=
  unfold step in H; cbv zeta in H;
  repeat match type of H with
         | context [match ?x with _ => _ end] => destruct x eqn:?
         end;
  try discriminate H;
  injection H as <-.

Lemma length_remove_nth {A : Type} (i : nat) (l : list A) :
  (i < length l)%nat -> length (remove_nth i l) = pred (length l).
Proof.
  intros H. unfold remove_nth.
  rewrite length_app, length_firstn, length_skipn. lia.
Qed.

Lemma run_app (w : World) (s1 s2 : list action) :
  run w (s1 ++ s2) = run (run w s1) s2.
Proof.
  revert w. induction s1 as [|a s1 IH]; intros w; simpl; [reflexivity|].
  destruct (step w a); apply IH.
Qed.

(** A property kept by every step holds along every schedule. *)
Lemma run_invariant (P : World -> Prop) :
  (forall w a w', P w -> step w a = Some w' -> P w') ->
  forall sched w, P w -> P (run w sched).
Proof.
  intros Hstep sched. induction sched as [|a rest IH]; intros w Hw; simpl; [assumption|].
  destruct (step w a) eqn:E; [apply IH; eauto | apply IH; assumption].
Qed.

(** What [onBlockProposed] leaves alone. *)
Lemma dispatch_frame p event p' :
  dispatch p event = Some p' ->
  cfg p' = cfg p /\ proveNotify p' = proveNotify p /\
  proveValidProofCh p' = proveValidProofCh p /\
  proveInvalidProofCh p' = proveInvalidProofCh p /\
  submitProofConcurrencyGuard p' = submitProofConcurrencyGuard p /\
  Chan.send (proposeConcurrencyGuard p) tt = Some (proposeConcurrencyGuard p') /\
  l1Current p' = Raw_BlockNumber event /\
  lastHandledBlockID p' = BigInt.Uint64 (Id event).
Proof.
  unfold dispatch. destruct (Chan.send (proposeConcurrencyGuard p) tt) eqn:E; [|discriminate].
  intros [= <-]. simpl. repeat split; reflexivity.
Qed.

(** The callback either returns with the prover as it was and no job, or it
    has dispatched the event. *)
Lemma onBlockProposed_cases p event :
  (after (onBlockProposed p event) = p /\
   dispatched (effects (onBlockProposed p event)) = []) \/
  (dispatch p event = Some (after (onBlockProposed p event)) /\
   effects (onBlockProposed p event) = [LogProposed (Id event); Go event] /\
   parked (onBlockProposed p event) = false).
Proof.
  unfold onBlockProposed.
  repeat match goal with
         | |- context [if ?b then _ else _] => destruct b
         end; simpl; auto.
  destruct (dispatch p event) eqn:E; simpl; auto.
Qed.

Lemma acquireSubmit_frame p p' :
  acquireSubmit p = Some p' ->
  cfg p' = cfg p /\ proveNotify p' = proveNotify p /\
  proveValidProofCh p' = proveValidProofCh p /\
  proveInvalidProofCh p' = proveInvalidProofCh p /\
  proposeConcurrencyGuard p' = proposeConcurrencyGuard p /\
  Chan.send (submitProofConcurrencyGuard p) tt = Some (submitProofConcurrencyGuard p') /\
  l1Current p' = l1Current p /\
  lastHandledBlockID p' = lastHandledBlockID p.
Proof.
  unfold acquireSubmit.
  destruct (Chan.send (submitProofConcurrencyGuard p) tt) eqn:E; [|discriminate].
  intros [= <-]. simpl. repeat split; reflexivity.
Qed.

Lemma set_resultCh_frame p b c :
  cfg (set_resultCh p b c) = cfg p /\
  proveNotify (set_resultCh p b c) = proveNotify p /\
  proposeConcurrencyGuard (set_resultCh p b c) = proposeConcurrencyGuard p /\
  submitProofConcurrencyGuard (set_resultCh p b c) = submitProofConcurrencyGuard p /\
  l1Current (set_resultCh p b c) = l1Current p /\
  lastHandledBlockID (set_resultCh p b c) = lastHandledBlockID p.
Proof. destruct b; simpl; repeat split; reflexivity. Qed.

(** Unfold what a completed send, receive or dispatch says. *)
Ltac frames :=
  repeat match goal with
         | E : dispatch _ _ = Some _ |- _ =>
             apply dispatch_frame in E;
             destruct E as (? & ? & ? & ? & ? & ? & ? & ?)
         | E : acquireSubmit _ = Some _ |- _ =>
             apply acquireSubmit_frame in E;
             destruct E as (? & ? & ? & ? & ? & ? & ? & ?)
         | E : Chan.recv _ = Some _ |- _ =>
             apply recv_Some in E; destruct E as (? & ?)
         | E : Chan.send _ _ = Some _ |- _ =>
             apply send_Some in E; destruct E as (? & ? & ?)
         end.

(** The notification slot stays a slot. *)
Lemma step_NotifySlot w a w' :
  NotifySlot (proveNotify (prover w)) -> step w a = Some w' ->
  NotifySlot (proveNotify (prover w')).
Proof.
  intros [Hc Hl] H. step_cases H; simpl; try (split; assumption).
  all: try (destruct (onBlockProposed_cases (prover w) event) as [[-> _] | [Hd _]];
            [split; assumption | frames; split; congruence]).
  all: try solve [frames; split; congruence].
  - destruct (set_resultCh_frame (prover w) isValidProof t) as (_ & -> & _).
    split; assumption.
  - unfold submitProofOp.
    destruct (acquireSubmit (set_resultCh (prover w) isValidProof t)) eqn:E; simpl;
      frames;
      destruct (set_resultCh_frame (prover w) isValidProof t) as (_ & E' & _);
      split; congruence.
  - split.
    + rewrite try_send_cap. assumption.
    + rewrite try_send_slot; [lia | assumption | unfold Chan.wf; lia].
  - frames. split; [congruence | lia].
Qed.

(** ** Initialisation *)

Lemma initL1Current_frame rpc p start :
  let p' := fst (initL1Current rpc p start) in
  cfg p' = cfg p /\ lastHandledBlockID p' = lastHandledBlockID p /\
  proveNotify p' = proveNotify p /\
  proveValidProofCh p' = proveValidProofCh p /\
  proveInvalidProofCh p' = proveInvalidProofCh p /\
  proposeConcurrencyGuard p' = proposeConcurrencyGuard p /\
  submitProofConcurrencyGuard p' = submitProofConcurrencyGuard p.
Proof.
  unfold initL1Current.
  repeat match goal with
         | |- context [match ?x with _ => _ end] => destruct x
         end; simpl; repeat split; reflexivity.
Qed.

(** What every call of the operation keeps, the finished retry keeps. *)
Lemma RetryLoop_keeps {St : Type} (operation : nat -> St -> St * option error)
      (b : BackOff) (P : St -> Prop) :
  (forall n s, P s -> P (fst (operation n s))) ->
  forall fuel n s ws r, RetryLoop operation b fuel n s ws = Some r -> P s -> P (final r).
Proof.
  intros Hop fuel. induction fuel as [|fuel IH]; intros n s ws r; simpl; [discriminate|].
  specialize (Hop n s). destruct (operation n s) as [s' e]. simpl in Hop.
  destruct e as [[code | inner]|].
  - destruct (b n).
    + intros H Hs. eapply IH; eauto.
    + intros [= <-] Hs. simpl. auto.
  - intros [= <-] Hs. simpl. auto.
  - intros [= <-] Hs. simpl. auto.
Qed.

(** The channels [InitFromConfig] hands to the event loop. *)
Lemma InitFromConfig_channels env fuel c p :
  InitFromConfig env fuel c = Some (Ok p) ->
  cfg p = c /\
  proveNotify p = Chan.make 1 /\
  proveValidProofCh p = Chan.make chBufferSize /\
  proveInvalidProofCh p = Chan.make chBufferSize /\
  proposeConcurrencyGuard p = Chan.make (MaxConcurrentProvingJobs c) /\
  submitProofConcurrencyGuard p = Chan.make (MaxConcurrentProvingJobs c).
Proof.
  unfold InitFromConfig.
  destruct (NewClient env); [discriminate|].
  destruct (GetConfig env); [discriminate|].
  match goal with
  | |- context [Retry ?op ?b fuel ?s] => destruct (Retry op b fuel s) as [r|] eqn:E
  end; [|discriminate].
  destruct (ctxErrAfter env); [discriminate|].
  assert (K : cfg (final r) = c /\ proveNotify (final r) = Chan.make 1 /\
              proveValidProofCh (final r) = Chan.make chBufferSize /\
              proveInvalidProofCh (final r) = Chan.make chBufferSize).
  { unfold Retry in E.
    eapply (RetryLoop_keeps _ _
              (fun q => cfg q = c /\ proveNotify q = Chan.make 1 /\
                        proveValidProofCh q = Chan.make chBufferSize /\
                        proveInvalidProofCh q = Chan.make chBufferSize)) in E.
    - exact E.
    - intros n s (H1 & H2 & H3 & H4). destruct (ctxErrAt env n); simpl; [auto|].
      destruct (initL1Current_frame (rpcAt env n) s (StartingBlockID c))
        as (-> & _ & -> & -> & -> & _). auto.
    - simpl. auto. }
  destruct K as (K1 & K2 & K3 & K4).
  assert (forall q, Some (Ok q) = Some (Ok p) -> q = p) as Hinj by (intros q [= ->]; reflexivity).
  destruct (Dummy c); [|destruct (NewZkevmRpcdProducer env); [discriminate|]];
    intros H; apply Hinj in H; subst p; simpl; repeat split; auto.
Qed.

(** ** The driver's notification slot *)

Lemma Driver_InitFromConfig_channels env d :
  Driver.InitFromConfig env = Ok d -> Driver.syncNotify d = Chan.make 1.
Proof.
  unfold Driver.InitFromConfig.
  repeat match goal with
         | |- context [match ?x with _ => _ end] => destruct x; try discriminate
         end.
  intros [= <-]. reflexivity.
Qed.

Lemma Driver_run_NotifySlot sched : forall d,
  NotifySlot (Driver.syncNotify d) -> NotifySlot (Driver.syncNotify (Driver.run d sched)).
Proof.
  induction sched as [|a rest IH]; intros d Hd; simpl; [assumption|].
  destruct (Driver.step d a) as [d'|] eqn:E; [|apply IH; assumption].
  apply IH. destruct Hd as [Hc Hl]. destruct a; simpl in E.
  - destruct (Chan.send (Driver.l1HeadCh d) h); [|discriminate].
    injection E as <-. split; assumption.
  - destruct (Chan.recv (Driver.l1HeadCh d)) as [[x c]|]; [|discriminate].
    injection E as <-. unfold Driver.reqSync. simpl. split.
    + rewrite try_send_cap. assumption.
    + rewrite try_send_slot; [lia | assumption | unfold Chan.wf; lia].
  - destruct (Chan.recv (Driver.syncNotify d)) as [[x c]|] eqn:R; [|discriminate].
    injection E as <-. simpl. apply recv_Some in R. destruct R. split; [congruence | lia].
Qed.

Lemma run_NotifySlot sched w :
  NotifySlot (proveNotify (prover w)) -> NotifySlot (proveNotify (prover (run w sched))).
Proof.
  apply (run_invariant (fun w => NotifySlot (proveNotify (prover w)))).
  intros; eapply step_NotifySlot; eauto.
Qed.

Lemma reqProving_slot p :
  NotifySlot (proveNotify p) ->
  NotifySlot (proveNotify (reqProving p)) /\ Chan.len (proveNotify (reqProving p)) = 1%nat.
Proof.
  intros [Hc Hl]. unfold reqProving, NotifySlot. simpl.
  rewrite try_send_cap, try_send_slot; [lia | assumption | unfold Chan.wf; lia].
Qed.

Lemma reqSync_slot d :
  NotifySlot (Driver.syncNotify d) ->
  NotifySlot (Driver.syncNotify (Driver.reqSync d)) /\
  Chan.len (Driver.syncNotify (Driver.reqSync d)) = 1%nat.
Proof.
  intros [Hc Hl]. unfold Driver.reqSync, NotifySlot. simpl.
  rewrite try_send_cap, try_send_slot; [lia | assumption | unfold Chan.wf; lia].
Qed.

Lemma reqProving_full p :
  Chan.cap (proveNotify p) = 1%nat -> Chan.len (proveNotify p) = 1%nat -> reqProving p = p.
Proof.
  intros Hc Hl. unfold reqProving. rewrite try_send_full by lia. destruct p; reflexivity.
Qed.

Lemma reqSync_full d :
  Chan.cap (Driver.syncNotify d) = 1%nat -> Chan.len (Driver.syncNotify d) = 1%nat ->
  Driver.reqSync d = d.
Proof.
  intros Hc Hl. unfold Driver.reqSync. rewrite try_send_full by lia. destruct d; reflexivity.
Qed.

Lemma NotifySlot_make : NotifySlot (Chan.make 1).
Proof. unfold NotifySlot, Chan.make, Chan.len. simpl. lia. Qed.

Lemma iter_reqProving_slot n p :
  NotifySlot (proveNotify p) ->
  Chan.len (proveNotify (Nat.iter (S n) reqProving p)) = 1%nat.
Proof.
  intros Hp. induction n as [|n IH].
  - simpl. now apply reqProving_slot.
  - change (Nat.iter (S (S n)) reqProving p) with (reqProving (Nat.iter (S n) reqProving p)).
    apply reqProving_slot. split; [|lia].
    clear IH. induction n as [|n IHn].
    + simpl. now apply reqProving_slot.
    + change (Nat.iter (S (S n)) reqProving p)
        with (reqProving (Nat.iter (S n) reqProving p)).
      unfold reqProving at 1. simpl. rewrite try_send_cap. exact IHn.
Qed.

Lemma iter_reqSync_slot n d :
  NotifySlot (Driver.syncNotify d) ->
  Chan.len (Driver.syncNotify (Nat.iter (S n) Driver.reqSync d)) = 1%nat.
Proof.
  intros Hd.
  assert (K : forall k, NotifySlot (Driver.syncNotify (Nat.iter k Driver.reqSync d))).
  { induction k as [|k IHk]; [exact Hd|]. simpl. now apply reqSync_slot. }
  simpl. apply reqSync_slot, K.
Qed.

(** C3. [proveNotify] and [syncNotify] are created with capacity one; along
    every schedule of the prover (of the driver) they hold at most one
    token; [reqProving] ([reqSync]) on a full channel returns with nothing
    changed; and N >= 1 requests in a row, from whatever state a schedule
    has led to, leave exactly one token. *)
Theorem notify_coalescing
        (env : InitEnv) (fuel : nat) (c : Config) (p : Prover)
        (denv : Driver.InitEnv) (d : Driver.Driver) :
  InitFromConfig env fuel c = Some (Ok p) ->
  Driver.InitFromConfig denv = Ok d ->
  (Chan.cap (proveNotify p) = 1%nat /\ Chan.cap (Driver.syncNotify d) = 1%nat) /\
  (forall sched,
      Chan.cap (proveNotify (prover (run (start p) sched))) = 1%nat /\
      (Chan.len (proveNotify (prover (run (start p) sched))) <= 1)%nat) /\
  (forall sched,
      Chan.cap (Driver.syncNotify (Driver.run d sched)) = 1%nat /\
      (Chan.len (Driver.syncNotify (Driver.run d sched)) <= 1)%nat) /\
  (forall sched,
      Chan.len (proveNotify (prover (run (start p) sched))) = 1%nat ->
      reqProving (prover (run (start p) sched)) = prover (run (start p) sched)) /\
  (forall sched,
      Chan.len (Driver.syncNotify (Driver.run d sched)) = 1%nat ->
      Driver.reqSync (Driver.run d sched) = Driver.run d sched) /\
  (forall sched n,
      Chan.len (proveNotify
                  (Nat.iter (S n) reqProving (prover (run (start p) sched)))) = 1%nat) /\
  (forall sched n,
      Chan.len (Driver.syncNotify
                  (Nat.iter (S n) Driver.reqSync (Driver.run d sched))) = 1%nat).
Proof.
  intros Hp Hd.
  apply InitFromConfig_channels in Hp. destruct Hp as (_ & Hn & _).
  apply Driver_InitFromConfig_channels in Hd.
  assert (Sp : forall sched, NotifySlot (proveNotify (prover (run (start p) sched)))).
  { intros sched. apply run_NotifySlot. simpl. rewrite Hn. apply NotifySlot_make. }
  assert (Sd : forall sched, NotifySlot (Driver.syncNotify (Driver.run d sched))).
  { intros sched. apply Driver_run_NotifySlot. rewrite Hd. apply NotifySlot_make. }
  repeat split.
  - rewrite Hn. reflexivity.
  - rewrite Hd. reflexivity.
  - apply Sp.
  - apply Sp.
  - apply Sd.
  - apply Sd.
  - intros sched Hfull. apply reqProving_full; [apply Sp | exact Hfull].
  - intros sched Hfull. apply reqSync_full; [apply Sd | exact Hfull].
  - intros sched n. apply iter_reqProving_slot, Sp.
  - intros sched n. apply iter_reqSync_slot, Sd.
Qed.

(** Three triggers during one pass, three heads during one sync. *)
Lemma notify_coalescing_witness :
  Chan.len (proveNotify
              (Nat.iter 3 reqProving
                 (prover (run (start (initialised scenario_a plainConfig))
                              [Trigger; SelectNotify])))) = 1%nat /\
  Chan.len (Driver.syncNotify
              (Nat.iter 3 Driver.reqSync
                 (Driver.run initialisedDriver
                    [Driver.HeadArrives 1; Driver.L1Head; Driver.SelectSync]))) = 1%nat /\
  reqProving (prover (run (start (initialised scenario_a plainConfig)) [Trigger]))
  = prover (run (start (initialised scenario_a plainConfig)) [Trigger]).
Proof.
  pose proof (notify_coalescing (quietInit scenario_a) 1 plainConfig
                (initialised scenario_a plainConfig)
                quietDriverInit initialisedDriver eq_refl eq_refl)
    as (_ & _ & _ & Hfull & _ & Hp & Hd).
  split; [exact (Hp [Trigger; SelectNotify] 2%nat)|].
  split; [exact (Hd [Driver.HeadArrives 1; Driver.L1Head; Driver.SelectSync] 2%nat)|].
  exact (Hfull [Trigger] eq_refl).
Defined.

(** ** The guards *)

Lemma step_GuardsCount n w a w' :
  GuardsCount n w -> step w a = Some w' -> GuardsCount n w'.
Proof.
  unfold GuardsCount. intros (Hc1 & Hc2 & Hl1 & Hl2 & Hb1 & Hb2) H.
  step_cases H; simpl.
  all: try (destruct (onBlockProposed_cases (prover w) event) as [[-> ->] | (Hd & -> & _)];
            [rewrite app_nil_r; repeat split; assumption | simpl]).
  all: frames.
  all: try match goal with
           | E : (_ <? _)%nat = true |- _ => apply Nat.ltb_lt in E
           end.
  all: rewrite ?length_app, ?length_remove_nth by assumption; simpl.
  all: try (destruct (set_resultCh_frame (prover w) isValidProof t)
             as (_ & _ & Eg1 & Eg2 & _)).
  all: try solve [repeat split; try congruence; lia].
  unfold submitProofOp.
  destruct (acquireSubmit (set_resultCh (prover w) isValidProof t)) eqn:E;
    simpl; frames; rewrite ?length_app; simpl;
    repeat split; try congruence; try lia.
  all: rewrite Eg2 in *; try congruence; lia.
Qed.

Lemma run_GuardsCount n sched w : GuardsCount n w -> GuardsCount n (run w sched).
Proof.
  apply (run_invariant (GuardsCount n)). intros; eapply step_GuardsCount; eauto.
Qed.

(** C4. From initialisation on, along every schedule, no more than
    [MaxConcurrentProvingJobs] proving jobs and no more than
    [MaxConcurrentProvingJobs] submission jobs are running; each guard has
    that capacity and holds exactly one token per running job. *)
Theorem bounded_concurrency (env : InitEnv) (fuel : nat) (c : Config) (p : Prover)
        (sched : list action) :
  InitFromConfig env fuel c = Some (Ok p) ->
  let w := run (start p) sched in
  (length (provingJobs w) <= MaxConcurrentProvingJobs c)%nat /\
  (length (submitJobs w) <= MaxConcurrentProvingJobs c)%nat /\
  Chan.cap (proposeConcurrencyGuard (prover w)) = MaxConcurrentProvingJobs c /\
  Chan.cap (submitProofConcurrencyGuard (prover w)) = MaxConcurrentProvingJobs c /\
  Chan.len (proposeConcurrencyGuard (prover w)) = length (provingJobs w) /\
  Chan.len (submitProofConcurrencyGuard (prover w)) = length (submitJobs w).
Proof.
  intros Hp w.
  apply InitFromConfig_channels in Hp. destruct Hp as (_ & _ & _ & _ & Hg1 & Hg2).
  assert (G : GuardsCount (MaxConcurrentProvingJobs c) w).
  { apply run_GuardsCount. unfold GuardsCount, start. simpl. rewrite Hg1, Hg2.
    unfold Chan.len. simpl. repeat split; lia. }
  destruct G as (? & ? & ? & ? & ? & ?). repeat split; assumption.
Qed.

(** Two places: a third proposal waits for a job to leave; two proofs are
    submitted side by side. *)
Lemma bounded_concurrency_witness :
  let w := run (start (initialised scenario_a plainConfig))
               [Propose (proposal 1 10); Propose (proposal 2 11); Propose (proposal 3 12);
                ProofProduced true (mkProof 1); ProofProduced false (mkProof 2);
                ProvingJobExit 0; Unpark; SelectProof true; SelectProof false] in
  provingJobs w = [proposal 2 11; proposal 3 12] /\
  submitJobs w = [(mkProof 1, true); (mkProof 2, false)] /\
  (length (provingJobs w) <= 2)%nat /\ (length (submitJobs w) <= 2)%nat.
Proof.
  intros w.
  pose proof (bounded_concurrency (quietInit scenario_a) 1 plainConfig
                (initialised scenario_a plainConfig)
                [Propose (proposal 1 10); Propose (proposal 2 11); Propose (proposal 3 12);
                 ProofProduced true (mkProof 1); ProofProduced false (mkProof 2);
                 ProvingJobExit 0; Unpark; SelectProof true; SelectProof false]
                eq_refl) as (H1 & H2 & _).
  split; [reflexivity|]. split; [reflexivity|]. split; [exact H1 | exact H2].
Defined.

(** ** Dispatch order *)

Lemma dispatched_app (t1 t2 : list effect) :
  dispatched (t1 ++ t2) = dispatched t1 ++ dispatched t2.
Proof.
  induction t1 as [|x t1 IH]; simpl; [reflexivity|].
  destruct x; simpl; rewrite IH; reflexivity.
Qed.

Lemma ids_app (l1 l2 : list BlockProposed) : ids (l1 ++ l2) = ids l1 ++ ids l2.
Proof. apply map_app. Qed.

(** For ids that fit in 64 bits, [ids] are the ids themselves. *)
Lemma ids_in_range (l : list BlockProposed) :
  Forall (fun event => U64.in_range (Id event)) l -> ids l = map Id l.
Proof.
  induction 1 as [|event l Hr _ IH]; simpl; [reflexivity|].
  rewrite Uint64_small by assumption. f_equal. exact IH.
Qed.

Lemma StronglySorted_snoc (l : list Z) (x : Z) :
  StronglySorted Z.lt l -> Forall (fun y => y < x) l -> StronglySorted Z.lt (l ++ [x]).
Proof.
  induction 1 as [|a l Hs IH Ha]; intros Hx; simpl.
  - constructor; constructor.
  - inversion Hx as [|? ? Hax Hlx]; subst. constructor.
    + apply IH. assumption.
    + apply Forall_app. split; [assumption | constructor; [assumption | constructor]].
Qed.

Lemma even_of_mod x : x mod 2 = 0 -> Z.even x = true.
Proof. rewrite Zmod_even. destruct (Z.even x); [reflexivity | discriminate]. Qed.

Lemma odd_of_mod x : x mod 2 <> 0 -> Z.odd x = true.
Proof.
  rewrite Zmod_odd. destruct (Z.odd x); [reflexivity | intros H; now contradiction H].
Qed.

(** What [onBlockProposed] has checked when it reaches the guard. *)
Lemma onBlockProposed_checked p event :
  dispatched (effects (onBlockProposed p event)) <> [] \/
  parked (onBlockProposed p event) = true ->
  Chan.len (proveValidProofCh p) = 0%nat /\
  Chan.len (proveInvalidProofCh p) = 0%nat /\
  lastHandledBlockID p < BigInt.Uint64 (Id event) /\
  passesParity (cfg p) event.
Proof.
  unfold onBlockProposed, passesParity.
  destruct (Nat.ltb_spec 0 (Chan.len (proveValidProofCh p))) as [L1|L1];
    [simpl; intros [K|K]; [now contradiction K | discriminate K]|].
  destruct (Nat.ltb_spec 0 (Chan.len (proveInvalidProofCh p))) as [L2|L2];
    [simpl; intros [K|K]; [now contradiction K | discriminate K]|].
  simpl.
  destruct (Z.leb_spec (BigInt.Uint64 (Id event)) (lastHandledBlockID p)) as [L3|L3];
    [simpl; intros [K|K]; [now contradiction K | discriminate K]|].
  destruct (OnlyProveEvenNumberBlocks (cfg p)) eqn:Ee;
    destruct (OnlyProveOddNumberBlocks (cfg p)) eqn:Eo;
    destruct (Z.eqb_spec (BigInt.Uint64 (Id event) mod 2) 0) as [Em|Em];
    simpl; try (intros [K|K]; [now contradiction K | discriminate K]);
    intros _; rewrite Uint64_parity in Em;
    repeat split; try lia; try discriminate; intros _;
    auto using even_of_mod, odd_of_mod.
Qed.

(** The invariant looks at the configuration, at [lastHandledBlockID], at
    the trace and at a parked proposal only. *)
Lemma DispatchInv_ext p0 w w' :
  cfg (prover w') = cfg (prover w) ->
  lastHandledBlockID (prover w') = lastHandledBlockID (prover w) ->
  dispatched (trace w') = dispatched (trace w) ->
  (forall event, loop w' = ParkedPropose event -> loop w = ParkedPropose event) ->
  DispatchInv p0 w -> DispatchInv p0 w'.
Proof.
  intros Ec El Et Ep [Hcfg Hs Hb Hm Hpar Hpk].
  constructor; rewrite ?Ec, ?El, ?Et; try assumption.
  intros event Hev. apply Hpk, Ep, Hev.
Qed.

(** Dispatching an event that is beyond [lastHandledBlockID] and passes the
    parity switches keeps the invariant. *)
Lemma dispatch_DispatchInv p0 w event p' js sj tr :
  DispatchInv p0 w ->
  lastHandledBlockID (prover w) < BigInt.Uint64 (Id event) ->
  passesParity (cfg p0) event ->
  dispatch (prover w) event = Some p' ->
  dispatched tr = dispatched (trace w) ++ [event] ->
  DispatchInv p0 (mkWorld p' Running js sj tr).
Proof.
  intros [Hcfg Hs Hb Hm Hpar Hpk] Hlt Hp Hd Htr.
  frames. constructor; simpl; rewrite ?Htr, ?ids_app; simpl.
  - congruence.
  - apply StronglySorted_snoc; [assumption|].
    eapply Forall_impl; [|exact Hb]. simpl. intros; lia.
  - apply Forall_app. split.
    + eapply Forall_impl; [|exact Hb]. simpl. intros; lia.
    + constructor; [lia | constructor].
  - lia.
  - apply Forall_app. split; [assumption | constructor; [assumption | constructor]].
  - discriminate.
Qed.

Lemma step_DispatchInv p0 w a w' :
  DispatchInv p0 w -> step w a = Some w' -> DispatchInv p0 w'.
Proof.
  intros I H.
  unfold step in H; cbv zeta in H.
  destruct a.
  - (* Propose *)
    destruct (loop w) eqn:El; try discriminate H. injection H as <-.
    destruct (onBlockProposed_cases (prover w) event) as [[Ea Ed] | (Hd & Ee & Ep)].
    + destruct (parked (onBlockProposed (prover w) event)) eqn:Epk.
      * pose proof (onBlockProposed_checked (prover w) event (or_intror Epk))
          as (_ & _ & Hlt & Hp).
        destruct I as [Hcfg Hs Hb Hm Hpar Hpk].
        constructor; simpl; rewrite ?Ea, ?dispatched_app, ?Ed, ?app_nil_r; try assumption.
        intros ev [= <-]. split; [assumption | rewrite <- Hcfg; assumption].
      * eapply DispatchInv_ext; [| | | |exact I]; simpl;
          rewrite ?Ea, ?dispatched_app, ?Ed, ?app_nil_r; try reflexivity.
        discriminate.
    + assert (Hne : dispatched (effects (onBlockProposed (prover w) event)) <> [])
        by (rewrite Ee; discriminate).
      pose proof (onBlockProposed_checked (prover w) event (or_introl Hne))
        as (_ & _ & Hlt & Hp).
      rewrite Ep, Ee.
      apply (dispatch_DispatchInv p0 w event); try assumption.
      * destruct I as [Hcfg _ _ _ _ _]. rewrite <- Hcfg. assumption.
      * rewrite dispatched_app. reflexivity.
  - (* Unpark *)
    destruct (loop w) eqn:El; try discriminate H.
    + destruct (dispatch (prover w) event) eqn:Ed; [|discriminate H]. injection H as <-.
      destruct (inv_parked _ _ I _ El) as [Hlt Hp].
      apply (dispatch_DispatchInv p0 w event); try assumption.
      rewrite dispatched_app. reflexivity.
    + destruct (acquireSubmit (prover w)) eqn:Ea; [|discriminate H]. injection H as <-.
      frames. eapply DispatchInv_ext; [| | | |exact I]; simpl; try assumption;
        try reflexivity. discriminate.
  - (* ProvingJobExit *)
    destruct (i <? length (provingJobs w))%nat; [|discriminate H].
    destruct (Chan.recv (proposeConcurrencyGuard (prover w))) as [[x g]|];
      [|discriminate H]. injection H as <-.
    eapply DispatchInv_ext; [| | | |exact I]; simpl; auto.
  - (* ProofProduced *)
    destruct (Chan.send (resultCh (prover w) isValidProof) pwh); [|discriminate H].
    injection H as <-.
    destruct (set_resultCh_frame (prover w) isValidProof t) as (E1 & _ & _ & _ & _ & E2).
    eapply DispatchInv_ext; [| | | |exact I]; simpl; auto.
  - (* SelectProof *)
    destruct (loop w) eqn:El; try discriminate H.
    destruct (Chan.recv (resultCh (prover w) isValidProof)) as [[x c]|];
      [|discriminate H]. injection H as <-.
    destruct (set_resultCh_frame (prover w) isValidProof c) as (E1 & _ & _ & _ & _ & E2).
    unfold submitProofOp.
    destruct (acquireSubmit (set_resultCh (prover w) isValidProof c)) eqn:Ea.
    + frames. eapply DispatchInv_ext; [| | | |exact I]; simpl; try congruence.
    + eapply DispatchInv_ext; [| | | |exact I]; simpl; try congruence.
  - (* SubmitJobExit *)
    destruct (i <? length (submitJobs w))%nat; [|discriminate H].
    destruct (Chan.recv (submitProofConcurrencyGuard (prover w))) as [[x g]|];
      [|discriminate H]. injection H as <-.
    eapply DispatchInv_ext; [| | | |exact I]; simpl; auto.
  - (* Trigger *)
    destruct (loop w) eqn:El; try discriminate H. injection H as <-.
    eapply DispatchInv_ext; [| | | |exact I]; simpl; auto. discriminate.
  - (* SelectNotify *)
    destruct (loop w) eqn:El; try discriminate H.
    destruct (Chan.recv (proveNotify (prover w))) as [[x c]|]; [|discriminate H].
    injection H as <-.
    eapply DispatchInv_ext; [| | | |exact I]; simpl; auto. discriminate.
  - (* Verified *)
    destruct (loop w) eqn:El; try discriminate H. injection H as <-.
    eapply DispatchInv_ext; [| | | |exact I]; simpl; auto. discriminate.
Qed.

Lemma start_DispatchInv p : DispatchInv p (start p).
Proof.
  constructor; simpl; try discriminate; try reflexivity; try constructor; lia.
Qed.

Lemma run_DispatchInv p0 sched w : DispatchInv p0 w -> DispatchInv p0 (run w sched).
Proof.
  apply (run_invariant (DispatchInv p0)). intros; eapply step_DispatchInv; eauto.
Qed.

(** No step lowers [lastHandledBlockID]. *)
Lemma step_lastHandledBlockID p0 w a w' :
  DispatchInv p0 w -> step w a = Some w' ->
  lastHandledBlockID (prover w) <= lastHandledBlockID (prover w').
Proof.
  intros I H. unfold step in H; cbv zeta in H.
  destruct a.
  - destruct (loop w) eqn:El; try discriminate H. injection H as <-. simpl.
    destruct (onBlockProposed_cases (prover w) event) as [[Ea Ed] | (Hd & Ee & Ep)].
    + rewrite Ea. lia.
    + assert (Hne : dispatched (effects (onBlockProposed (prover w) event)) <> [])
        by (rewrite Ee; discriminate).
      pose proof (onBlockProposed_checked (prover w) event (or_introl Hne))
        as (_ & _ & Hlt & _).
      frames. lia.
  - destruct (loop w) eqn:El; try discriminate H.
    + destruct (dispatch (prover w) event) eqn:Ed; [|discriminate H]. injection H as <-.
      destruct (inv_parked _ _ I _ El) as [Hlt _]. frames. simpl. lia.
    + destruct (acquireSubmit (prover w)) eqn:Ea; [|discriminate H]. injection H as <-.
      frames. simpl. lia.
  - destruct (i <? length (provingJobs w))%nat; [|discriminate H].
    destruct (Chan.recv (proposeConcurrencyGuard (prover w))) as [[x g]|];
      [|discriminate H]. injection H as <-. simpl. lia.
  - destruct (Chan.send (resultCh (prover w) isValidProof) pwh); [|discriminate H].
    injection H as <-. simpl.
    destruct (set_resultCh_frame (prover w) isValidProof t) as (_ & _ & _ & _ & _ & ->).
    lia.
  - destruct (loop w) eqn:El; try discriminate H.
    destruct (Chan.recv (resultCh (prover w) isValidProof)) as [[x c]|];
      [|discriminate H]. injection H as <-.
    destruct (set_resultCh_frame (prover w) isValidProof c) as (_ & _ & _ & _ & _ & E2).
    unfold submitProofOp.
    destruct (acquireSubmit (set_resultCh (prover w) isValidProof c)) eqn:Ea;
      simpl; frames; lia.
  - destruct (i <? length (submitJobs w))%nat; [|discriminate H].
    destruct (Chan.recv (submitProofConcurrencyGuard (prover w))) as [[x g]|];
      [|discriminate H]. injection H as <-. simpl. lia.
  - destruct (loop w) eqn:El; try discriminate H. injection H as <-. simpl. lia.
  - destruct (loop w) eqn:El; try discriminate H.
    destruct (Chan.recv (proveNotify (prover w))) as [[x c]|]; [|discriminate H].
    injection H as <-. simpl. lia.
  - destruct (loop w) eqn:El; try discriminate H. injection H as <-. simpl. lia.
Qed.

Lemma run_lastHandledBlockID p0 sched : forall w,
  DispatchInv p0 w ->
  lastHandledBlockID (prover w) <= lastHandledBlockID (prover (run w sched)).
Proof.
  induction sched as [|a rest IH]; intros w I; simpl; [lia|].
  destruct (step w a) as [w'|] eqn:E; [|apply IH; assumption].
  pose proof (step_lastHandledBlockID p0 w a w' I E).
  pose proof (IH w' (step_DispatchInv p0 w a w' I E)). lia.
Qed.

(** The jobs that get as far as [RequestProof] are some of the jobs, in the
    same order. *)
Lemma requestProofCalls_In rpcOf requestErr jobs : forall n call,
  In call (requestProofCalls rpcOf requestErr n jobs) -> In (snd call) jobs.
Proof.
  induction jobs as [|event rest IH]; intros n call; simpl; [auto|].
  destruct (requested (handleBlockProposedEvent (rpcOf n) requestErr event)) as [c|] eqn:E.
  - intros [<- | Hin]; [|right; eapply IH; eauto].
    left. unfold handleBlockProposedEvent in E.
    repeat match type of E with
           | context [match ?x with _ => _ end] => destruct x
           end; simpl in E; try discriminate E; injection E as <-; reflexivity.
  - intros Hin. right. eapply IH; eauto.
Qed.

Lemma requestProofCalls_sorted rpcOf requestErr jobs : forall n,
  StronglySorted Z.lt (ids jobs) ->
  StronglySorted Z.lt (ids (map snd (requestProofCalls rpcOf requestErr n jobs))).
Proof.
  induction jobs as [|event rest IH]; intros n Hs; simpl; [constructor|].
  simpl in Hs. inversion Hs as [|? ? Hrest Hall]; subst.
  assert (Hcall : forall call,
             requested (handleBlockProposedEvent (rpcOf n) requestErr event) = Some call ->
             snd call = event).
  { intros call E.
    destruct (requestProofCalls_In rpcOf requestErr [event] n call) as [K|[]];
      [simpl; rewrite E; left; reflexivity | symmetry; exact K]. }
  destruct (requested (handleBlockProposedEvent (rpcOf n) requestErr event)) as [c|];
    [|apply IH; assumption].
  simpl. rewrite (Hcall c eq_refl). constructor; [apply IH; assumption|].
  apply Forall_forall. intros x Hx. unfold ids in Hx.
  rewrite map_map in Hx. apply in_map_iff in Hx. destruct Hx as (call & <- & Hin).
  apply requestProofCalls_In in Hin.
  rewrite Forall_forall in Hall. apply Hall. unfold ids. apply in_map_iff. eauto.
Qed.

(** C1. Along every schedule from any prover state: the ids of the events
    for which a proving job is started are strictly increasing in starting
    order, and so are the ids for which a job calls a submitter's
    [RequestProof], whatever the endpoints answer; every such id is above the
    initial [lastHandledBlockID] and at most the current one; a call of
    [onBlockProposed] that starts a job was made with the id above
    [lastHandledBlockID] and leaves [lastHandledBlockID] at the id; and
    [lastHandledBlockID] never decreases. *)
Theorem monotonic_dispatch (p : Prover) (sched sched' : list action)
        (rpcOf : nat -> RPC) (requestErr : submitter -> option error) :
  let w := run (start p) sched in
  StronglySorted Z.lt (ids (dispatched (trace w))) /\
  StronglySorted Z.lt
    (ids (map snd (requestProofCalls rpcOf requestErr 0 (dispatched (trace w))))) /\
  Forall (fun i => lastHandledBlockID p < i <= lastHandledBlockID (prover w))
         (ids (dispatched (trace w))) /\
  (forall q event,
      dispatched (effects (onBlockProposed q event)) = [] \/
      (lastHandledBlockID q < BigInt.Uint64 (Id event) /\
       lastHandledBlockID (after (onBlockProposed q event)) = BigInt.Uint64 (Id event))) /\
  lastHandledBlockID p <= lastHandledBlockID (prover w) /\
  lastHandledBlockID (prover w) <= lastHandledBlockID (prover (run w sched')).
Proof.
  intros w.
  assert (I : DispatchInv p w) by apply run_DispatchInv, start_DispatchInv.
  split; [apply (inv_sorted p w I)|].
  split; [apply requestProofCalls_sorted, (inv_sorted p w I)|].
  split; [apply (inv_bounds p w I)|].
  split.
  - intros q event.
    destruct (onBlockProposed_cases q event) as [[_ Ed] | (Hd & Ee & _)]; [left; exact Ed|].
    right.
    assert (Hne : dispatched (effects (onBlockProposed q event)) <> [])
      by (rewrite Ee; discriminate).
    pose proof (onBlockProposed_checked q event (or_introl Hne)) as (_ & _ & Hlt & _).
    frames. split; assumption.
  - split; [apply (inv_mono p w I) | apply (run_lastHandledBlockID p), I].
Qed.

(** ** The parity switches *)

Lemma Z_even_odd_false x : Z.odd x = true -> Z.even x = true -> False.
Proof. rewrite <- Z.negb_even. destruct (Z.even x); discriminate. Qed.

(** An event that a switch excludes is neither dispatched nor parked, and
    the prover is as before. *)
Lemma onBlockProposed_filtered q event :
  ~ passesParity (cfg q) event ->
  after (onBlockProposed q event) = q /\
  dispatched (effects (onBlockProposed q event)) = [] /\
  parked (onBlockProposed q event) = false.
Proof.
  intros Hn.
  destruct (onBlockProposed_cases q event) as [[Ea Ed] | (Hd & Ee & Ep)].
  - repeat split; try assumption.
    destruct (parked (onBlockProposed q event)) eqn:Epk; [|reflexivity].
    destruct (onBlockProposed_checked q event (or_intror Epk)) as (_ & _ & _ & Hp).
    contradiction.
  - assert (Hne : dispatched (effects (onBlockProposed q event)) <> [])
      by (rewrite Ee; discriminate).
    destruct (onBlockProposed_checked q event (or_introl Hne)) as (_ & _ & _ & Hp).
    contradiction.
Qed.

(** C6. With [OnlyProveEvenNumberBlocks], a call of [onBlockProposed] on an
    odd id returns with the prover unchanged, no job started and no token
    taken, and along every schedule every job started and every
    [RequestProof] call is for an even id; with [OnlyProveOddNumberBlocks]
    the same holds with odd and even exchanged. *)
Theorem parity_filter (p : Prover) (sched : list action)
        (rpcOf : nat -> RPC) (requestErr : submitter -> option error) :
  let w := run (start p) sched in
  (OnlyProveEvenNumberBlocks (cfg p) = true ->
   (forall event, Z.odd (Id event) = true ->
      after (onBlockProposed (prover w) event) = prover w /\
      dispatched (effects (onBlockProposed (prover w) event)) = [] /\
      parked (onBlockProposed (prover w) event) = false) /\
   Forall (fun event => Z.even (Id event) = true) (dispatched (trace w)) /\
   Forall (fun call => Z.even (Id (snd call)) = true)
          (requestProofCalls rpcOf requestErr 0 (dispatched (trace w)))) /\
  (OnlyProveOddNumberBlocks (cfg p) = true ->
   (forall event, Z.even (Id event) = true ->
      after (onBlockProposed (prover w) event) = prover w /\
      dispatched (effects (onBlockProposed (prover w) event)) = [] /\
      parked (onBlockProposed (prover w) event) = false) /\
   Forall (fun event => Z.odd (Id event) = true) (dispatched (trace w)) /\
   Forall (fun call => Z.odd (Id (snd call)) = true)
          (requestProofCalls rpcOf requestErr 0 (dispatched (trace w)))).
Proof.
  intros w.
  assert (I : DispatchInv p w) by apply run_DispatchInv, start_DispatchInv.
  pose proof (inv_cfg p w I) as Hcfg. pose proof (inv_parity p w I) as Hpar.
  split; intros Hflag.
  - split; [|split].
    + intros event Hodd. apply onBlockProposed_filtered. rewrite Hcfg.
      intros [He _]. eapply Z_even_odd_false; eauto.
    + eapply Forall_impl; [|exact Hpar]. intros event [He _]. auto.
    + apply Forall_forall. intros call Hin. apply requestProofCalls_In in Hin.
      rewrite Forall_forall in Hpar. destruct (Hpar _ Hin) as [He _]. auto.
  - split; [|split].
    + intros event Heven. apply onBlockProposed_filtered. rewrite Hcfg.
      intros [_ Ho]. eapply Z_even_odd_false; eauto.
    + eapply Forall_impl; [|exact Hpar]. intros event [_ Ho]. auto.
    + apply Forall_forall. intros call Hin. apply requestProofCalls_In in Hin.
      rewrite Forall_forall in Hpar. destruct (Hpar _ Hin) as [_ Ho]. auto.
Qed.

(** Ids 5 to 8 offered to an even-only and to an odd-only prover. *)
Lemma parity_filter_witness :
  dispatched (trace (run (start (handledUpTo4 evenOnlyConfig))
                         (map (fun n => Propose (proposal n (100 + n))) [5; 6; 7; 8])))
  = [proposal 6 106; proposal 8 108] /\
  dispatched (trace (run (start (handledUpTo4 oddOnlyConfig))
                         (map (fun n => Propose (proposal n (100 + n))) [5; 6; 7; 8])))
  = [proposal 5 105; proposal 7 107] /\
  Forall (fun event => Z.even (Id event) = true)
         (dispatched (trace (run (start (handledUpTo4 evenOnlyConfig))
                         (map (fun n => Propose (proposal n (100 + n))) [5; 6; 7; 8])))) /\
  Forall (fun event => Z.odd (Id event) = true)
         (dispatched (trace (run (start (handledUpTo4 oddOnlyConfig))
                         (map (fun n => Propose (proposal n (100 + n))) [5; 6; 7; 8])))).
Proof.
  split; [reflexivity|]. split; [reflexivity|]. split.
  - exact (proj1 (proj2 (proj1 (parity_filter (handledUpTo4 evenOnlyConfig)
             (map (fun n => Propose (proposal n (100 + n))) [5; 6; 7; 8])
             (fun _ => scenario_a) (fun _ => None)) eq_refl))).
  - exact (proj1 (proj2 (proj2 (parity_filter (handledUpTo4 oddOnlyConfig)
             (map (fun n => Propose (proposal n (100 + n))) [5; 6; 7; 8])
             (fun _ => scenario_a) (fun _ => None)) eq_refl))).
Defined.

(** ** Replays and pending proofs *)

(** The callback on an event that gets through every check with room in the
    guard. *)
Lemma onBlockProposed_dispatches p event :
  Chan.len (proveValidProofCh p) = 0%nat ->
  Chan.len (proveInvalidProofCh p) = 0%nat ->
  lastHandledBlockID p < BigInt.Uint64 (Id event) ->
  OnlyProveEvenNumberBlocks (cfg p) = false ->
  OnlyProveOddNumberBlocks (cfg p) = false ->
  (Chan.len (proposeConcurrencyGuard p) < Chan.cap (proposeConcurrencyGuard p))%nat ->
  exists p',
    dispatch p event = Some p' /\
    onBlockProposed p event = mkCallback p' [LogProposed (Id event); Go event] false.
Proof.
  intros Hv Hi Hlt He Ho Hroom. unfold onBlockProposed.
  rewrite Hv, Hi, He, Ho. simpl.
  destruct (Z.leb_spec (BigInt.Uint64 (Id event)) (lastHandledBlockID p)); [lia|].
  unfold dispatch, Chan.send, Chan.full.
  destruct (Nat.leb_spec (Chan.cap (proposeConcurrencyGuard p))
                         (Chan.len (proposeConcurrencyGuard p))); [lia|].
  eexists. split; reflexivity.
Qed.

(** The callback on an event at or below [lastHandledBlockID]. *)
Lemma onBlockProposed_replay p event :
  BigInt.Uint64 (Id event) <= lastHandledBlockID p ->
  after (onBlockProposed p event) = p /\
  dispatched (effects (onBlockProposed p event)) = [] /\
  parked (onBlockProposed p event) = false.
Proof.
  intros Hle.
  destruct (onBlockProposed_cases p event) as [[Ea Ed] | (Hd & Ee & Ep)].
  - repeat split; try assumption.
    destruct (parked (onBlockProposed p event)) eqn:Epk; [|reflexivity].
    destruct (onBlockProposed_checked p event (or_intror Epk)) as (_ & _ & Hlt & _). lia.
  - assert (Hne : dispatched (effects (onBlockProposed p event)) <> [])
      by (rewrite Ee; discriminate).
    destruct (onBlockProposed_checked p event (or_introl Hne)) as (_ & _ & Hlt & _). lia.
Qed.

(** C7. An event whose id is at or below [lastHandledBlockID] starts no job,
    takes no token and leaves the prover unchanged; so does every event that
    was dispatched earlier in the schedule. With [lastHandledBlockID] at 4,
    nothing pending, no parity switch and two free places in the guard, the
    stream of ids 5, 6, 5 starts exactly the jobs for 5 and for 6. *)
Theorem idempotent_skip (p : Prover) (e5 e6 : BlockProposed) :
  lastHandledBlockID p = 4 ->
  Id e5 = 5 -> Id e6 = 6 ->
  Chan.len (proveValidProofCh p) = 0%nat ->
  Chan.len (proveInvalidProofCh p) = 0%nat ->
  OnlyProveEvenNumberBlocks (cfg p) = false ->
  OnlyProveOddNumberBlocks (cfg p) = false ->
  (Chan.len (proposeConcurrencyGuard p) + 2 <= Chan.cap (proposeConcurrencyGuard p))%nat ->
  (forall q event,
      BigInt.Uint64 (Id event) <= lastHandledBlockID q ->
      after (onBlockProposed q event) = q /\
      dispatched (effects (onBlockProposed q event)) = [] /\
      parked (onBlockProposed q event) = false) /\
  (forall sched event,
      In event (dispatched (trace (run (start p) sched))) ->
      dispatched (trace (run (run (start p) sched) [Propose event]))
      = dispatched (trace (run (start p) sched)) /\
      provingJobs (run (run (start p) sched) [Propose event])
      = provingJobs (run (start p) sched) /\
      prover (run (run (start p) sched) [Propose event])
      = prover (run (start p) sched)) /\
  dispatched (trace (run (start p) [Propose e5; Propose e6])) = [e5; e6] /\
  dispatched (trace (run (start p) [Propose e5; Propose e6; Propose e5])) = [e5; e6] /\
  provingJobs (run (start p) [Propose e5; Propose e6; Propose e5]) = [e5; e6] /\
  lastHandledBlockID (prover (run (start p) [Propose e5; Propose e6; Propose e5])) = 6.
Proof.
  intros Hl H5 H6 Hv Hi He Ho Hroom.
  split; [intros q event; apply onBlockProposed_replay|].
  split.
  { intros sched event Hin.
    set (w := run (start p) sched) in *.
    assert (I : DispatchInv p w) by apply run_DispatchInv, start_DispatchInv.
    assert (Hle : BigInt.Uint64 (Id event) <= lastHandledBlockID (prover w)).
    { pose proof (inv_bounds p w I) as Hb. rewrite Forall_forall in Hb.
      apply (Hb (BigInt.Uint64 (Id event))). unfold ids. apply in_map_iff. eauto. }
    destruct (onBlockProposed_replay (prover w) event Hle) as (Ea & Ed & Ep).
    simpl. unfold step.
    destruct (loop w); simpl; try (repeat split; reflexivity).
    rewrite Ea, Ed, dispatched_app, Ed, !app_nil_r. repeat split; reflexivity. }
  assert (U5 : BigInt.Uint64 (Id e5) = 5) by (rewrite H5; reflexivity).
  assert (U6 : BigInt.Uint64 (Id e6) = 6) by (rewrite H6; reflexivity).
  destruct (onBlockProposed_dispatches p e5) as (p1 & Hd1 & E1); try assumption; try lia.
  pose proof Hd1 as F1. apply dispatch_frame in F1.
  destruct F1 as (Fc & _ & Fv & Fi & _ & Fg & _ & Fl).
  apply send_Some in Fg. destruct Fg as (_ & Fcap & Flen).
  destruct (onBlockProposed_dispatches p1 e6) as (p2 & Hd2 & E2);
    try congruence; try lia.
  pose proof Hd2 as F2. apply dispatch_frame in F2.
  destruct F2 as (_ & _ & _ & _ & _ & _ & _ & Fl2).
  destruct (onBlockProposed_replay p2 e5) as (Ea & Ed & Ep); [lia|].
  assert (R2 : run (start p) [Propose e5; Propose e6]
               = mkWorld p2 Running [e5; e6] [] 
                         [LogProposed (Id e5); Go e5; LogProposed (Id e6); Go e6]).
  { simpl. unfold step. simpl. rewrite E1. simpl. rewrite E2. reflexivity. }
  change [Propose e5; Propose e6; Propose e5]
    with ([Propose e5; Propose e6] ++ [Propose e5]).
  rewrite run_app, R2. simpl. unfold step. simpl.
  rewrite Ea, Ed. repeat split; try reflexivity. congruence.
Qed.

Lemma idempotent_skip_witness :
  dispatched (trace (run (start (handledUpTo4 plainConfig))
                         [Propose (proposal 5 105); Propose (proposal 6 106);
                          Propose (proposal 5 105)]))
  = [proposal 5 105; proposal 6 106].
Proof.
  exact (proj1 (proj2 (proj2 (proj2
           (idempotent_skip (handledUpTo4 plainConfig) (proposal 5 105) (proposal 6 106)
              eq_refl eq_refl eq_refl eq_refl eq_refl eq_refl eq_refl
              (le_n 2)))))).
Defined.

(** The first test of the callback. *)
Lemma onBlockProposed_pending p event :
  (0 < Chan.len (proveValidProofCh p))%nat \/
  (0 < Chan.len (proveInvalidProofCh p))%nat ->
  onBlockProposed p event = mkCallback p [CallEnd] false.
Proof.
  intros Hpending. unfold onBlockProposed.
  destruct Hpending as [H|H]; apply Nat.ltb_lt in H; rewrite H;
    [reflexivity | rewrite orb_true_r; reflexivity].
Qed.

(** C8. Called while a result channel is not empty, [onBlockProposed] calls
    [end()] and returns, whatever the event and the configuration: the
    prover is unchanged (no token taken, cursor as before), nothing is
    logged as skipped or proposed, no job is started, and the call does not
    wait on the guard. *)
Theorem early_stop_on_pending_proofs (p : Prover) (event : BlockProposed) :
  (0 < Chan.len (proveValidProofCh p))%nat \/
  (0 < Chan.len (proveInvalidProofCh p))%nat ->
  onBlockProposed p event = mkCallback p [CallEnd] false /\
  (forall w, prover w = p -> loop w = Running ->
             step w (Propose event)
             = Some (mkWorld p Running (provingJobs w) (submitJobs w)
                             (trace w ++ [CallEnd]))).
Proof.
  intros Hpending.
  pose proof (onBlockProposed_pending p event Hpending) as E.
  split; [exact E|].
  intros w Hp Hl. unfold step. rewrite Hl, Hp, E. simpl.
  rewrite app_nil_r. reflexivity.
Qed.

(** A valid proof is waiting: the proposal of the next id ends the pass. *)
Lemma early_stop_on_pending_proofs_witness :
  onBlockProposed (withPendingProof (handledUpTo4 plainConfig)) (proposal 5 105)
  = mkCallback (withPendingProof (handledUpTo4 plainConfig)) [CallEnd] false.
Proof.
  exact (proj1 (early_stop_on_pending_proofs
                  (withPendingProof (handledUpTo4 plainConfig)) (proposal 5 105)
                  (or_introl (le_n 1)))).
Defined.

(** ** Skip paths and the cursor *)

(** C10 as stated does not hold in its last clause. The id-5 proposal in L1
    block 100 is skipped as odd, the id-6 proposal in block 101 is
    dispatched in the same pass and moves the cursor to 101; the next pass
    reads from block 101 and never sees the skipped proposal. *)
Lemma skipped_event_not_reexamined :
  In (proposal 5 100) twoBlocks /\
  trace (proveOp twoBlocks (start evenOnlyAt100))
  = [LogSkipOdd 5; LogProposed 6; Go (proposal 6 101)] /\
  l1Current (prover (proveOp twoBlocks (start evenOnlyAt100))) = 101 /\
  eventsFrom twoBlocks (l1Current (prover (proveOp twoBlocks (start evenOnlyAt100))))
  = [proposal 6 101] /\
  ~ In (proposal 5 100)
       (eventsFrom twoBlocks
          (l1Current (prover (proveOp twoBlocks (start evenOnlyAt100))))) /\
  trace (proveOp twoBlocks (proveOp twoBlocks (start evenOnlyAt100)))
  = trace (proveOp twoBlocks (start evenOnlyAt100)).
Proof.
  split; [left; reflexivity|].
  split; [reflexivity|]. split; [reflexivity|]. split; [reflexivity|].
  split; [|reflexivity].
  intros [H|[]]. discriminate H.
Qed.

(** C10, amended. When [onBlockProposed] is called with a result channel
    non-empty, with an id at or below [lastHandledBlockID], or with an id a
    parity switch excludes, it returns with the whole prover state, so
    [l1Current] and [lastHandledBlockID], unchanged, without starting a job
    or waiting; and a [proveOp] pass started from the resulting state reads
    the event again exactly when the event is on the chain at an L1 height
    not below [l1Current]. *)
Theorem skip_paths_keep_cursor (p : Prover) (event : BlockProposed)
        (chain : list BlockProposed) :
  (0 < Chan.len (proveValidProofCh p))%nat \/
  (0 < Chan.len (proveInvalidProofCh p))%nat \/
  BigInt.Uint64 (Id event) <= lastHandledBlockID p \/
  ~ passesParity (cfg p) event ->
  after (onBlockProposed p event) = p /\
  l1Current (after (onBlockProposed p event)) = l1Current p /\
  lastHandledBlockID (after (onBlockProposed p event)) = lastHandledBlockID p /\
  dispatched (effects (onBlockProposed p event)) = [] /\
  parked (onBlockProposed p event) = false /\
  (In event (eventsFrom chain (l1Current (after (onBlockProposed p event)))) <->
   In event chain /\ l1Current p <= Raw_BlockNumber event).
Proof.
  intros Hwhy.
  assert (K : after (onBlockProposed p event) = p /\
              dispatched (effects (onBlockProposed p event)) = [] /\
              parked (onBlockProposed p event) = false).
  { destruct Hwhy as [H | [H | [H | H]]].
    - rewrite (onBlockProposed_pending p event (or_introl H)). simpl. auto.
    - rewrite (onBlockProposed_pending p event (or_intror H)). simpl. auto.
    - now apply onBlockProposed_replay.
    - now apply onBlockProposed_filtered. }
  destruct K as (Ea & Ed & Ep). rewrite Ea.
  split; [reflexivity|]. split; [reflexivity|]. split; [reflexivity|].
  split; [assumption|]. split; [assumption|].
  unfold eventsFrom. rewrite filter_In, Z.leb_le. reflexivity.
Qed.

(** The odd proposal is skipped by the even-only prover; as long as the
    cursor stays at block 100 the next pass reads it again. *)
Lemma skip_paths_keep_cursor_witness :
  l1Current (after (onBlockProposed evenOnlyAt100 (proposal 5 100))) = 100 /\
  lastHandledBlockID (after (onBlockProposed evenOnlyAt100 (proposal 5 100))) = 4 /\
  In (proposal 5 100)
     (eventsFrom twoBlocks
        (l1Current (after (onBlockProposed evenOnlyAt100 (proposal 5 100))))).
Proof.
  assert (Hodd : ~ passesParity (cfg evenOnlyAt100) (proposal 5 100))
    by (intros [He _]; specialize (He eq_refl); discriminate He).
  destruct (skip_paths_keep_cursor evenOnlyAt100 (proposal 5 100) twoBlocks
              (or_intror (or_intror (or_intror Hodd))))
    as (_ & H1 & H2 & _ & _ & H3).
  split; [exact H1|]. split; [exact H2|].
  apply H3. split; [left; reflexivity | simpl; lia].
Defined.

(** ** Retries *)

(** After [k] retried failures and a success the loop has called the
    operation [k + 1] times and waited [k] times. *)
Lemma RetryLoop_succeeds {St : Type} (operation : nat -> St -> St * option error)
      (d : Z) (k : nat) : forall fuel n s ws,
  (forall i t, (i < k)%nat ->
               fst (operation (n + i)%nat t) = t /\ retried (snd (operation (n + i)%nat t))) ->
  (forall t, snd (operation (n + k)%nat t) = None) ->
  (k < fuel)%nat ->
  RetryLoop operation (NewConstantBackOff d) fuel n s ws
  = Some (mkRun (fst (operation (n + k)%nat s)) None (S (n + k)) (ws ++ repeat d k)).
Proof.
  induction k as [|k IH]; intros fuel n s ws Hfail Hok Hfuel.
  - destruct fuel as [|fuel]; [lia|]. simpl.
    specialize (Hok s). rewrite Nat.add_0_r in *.
    destruct (operation n s) as [s' r]. simpl in *. subst r.
    rewrite app_nil_r. reflexivity.
  - destruct fuel as [|fuel]; [lia|]. simpl.
    destruct (Hfail 0%nat s ltac:(lia)) as [Hs Hr]. rewrite Nat.add_0_r in *.
    destruct (operation n s) as [s' r]. simpl in Hs, Hr. subst s'.
    destruct r as [[code | inner]|]; try contradiction.
    change (NewConstantBackOff d n) with (Some d). cbv iota.
    rewrite (IH fuel (S n) s (ws ++ [d])).
    + rewrite <- app_assoc. simpl. rewrite Nat.add_succ_r. reflexivity.
    + intros i t Hi. specialize (Hfail (S i) t ltac:(lia)).
      rewrite Nat.add_succ_r in Hfail. exact Hfail.
    + intros t. specialize (Hok t). rewrite Nat.add_succ_r in Hok. exact Hok.
    + lia.
Qed.

(** An operation that always fails with a plain error is retried for ever. *)
Lemma RetryLoop_never_returns {St : Type} (operation : nat -> St -> St * option error)
      (d : Z) :
  (forall n s, retried (snd (operation n s))) ->
  forall fuel n s ws, RetryLoop operation (NewConstantBackOff d) fuel n s ws = None.
Proof.
  intros Hfail fuel. induction fuel as [|fuel IH]; intros n s ws; simpl; [reflexivity|].
  specialize (Hfail n s). destruct (operation n s) as [s' r]. simpl in Hfail.
  destruct r as [[code | inner]|]; try contradiction. apply IH.
Qed.

(** C5 as stated does not hold. With the context cancelled before the second
    attempt the job still makes the second and the third attempt, 12 s
    apart, where a loop that stops on cancellation ends at the second; with
    a submitter that keeps failing, the job is still retrying after any
    number of rounds although the context is cancelled. *)
Lemma oracle_retry_ignores_cancel :
  ctxCancelled cancelledThenAccepted 1 = true /\
  submitJob oracleConfig cancelledThenAccepted 3 (mkProof 7) true
  = Some (mkRun tt None 3 [12; 12]) /\
  submitJobAsSpecified cancelledThenAccepted 3 (mkProof 7)
  = Some (mkRun tt None 2 [12]) /\
  (forall n, ctxCancelled cancelledAndFailing n = true) /\
  (forall fuel, submitJob oracleConfig cancelledAndFailing fuel (mkProof 7) true = None).
Proof.
  split; [reflexivity|]. split; [reflexivity|]. split; [reflexivity|].
  split; [reflexivity|].
  intros fuel. unfold submitJob, Retry. simpl.
  apply RetryLoop_never_returns. intros n s. exact I.
Qed.

(** C5, amended. In the oracle branch ([isValidProof] and [Dummy]) the
    submission is called again after a wait of 12 s for as long as it
    returns an error: when the first [k] calls fail and the next succeeds,
    the job makes exactly [k + 1] calls with [k] waits of 12 s and ends
    without error, whether or not the context is cancelled meanwhile.
    Outside the oracle branch, for a valid proof without [Dummy] and for an
    invalid-block proof, [SubmitProof] is called exactly once. *)
Theorem oracle_resubmission
        (c : Config)
        (submit : submitter -> nat -> ProofWithHeader -> bool -> option error)
        (cancelled : nat -> bool) (pwh : ProofWithHeader) (k fuel : nat) :
  (forall i, (i < k)%nat -> retried (submit ValidSubmitter i pwh true)) ->
  submit ValidSubmitter k pwh true = None ->
  (k < fuel)%nat ->
  (Dummy c = true ->
   submitJob c (mkSubmitEnv submit cancelled) fuel pwh true
   = Some (mkRun tt None (S k) (repeat 12 k))) /\
  (Dummy c = false ->
   submitJob c (mkSubmitEnv submit cancelled) fuel pwh true
   = Some (mkRun tt (submit ValidSubmitter 0%nat pwh false) 1%nat [])) /\
  submitJob c (mkSubmitEnv submit cancelled) fuel pwh false
  = Some (mkRun tt (submit InvalidSubmitter 0%nat pwh false) 1%nat []).
Proof.
  intros Hfail Hok Hfuel. unfold submitJob. simpl.
  split; [|split; [intros ->; reflexivity | reflexivity]].
  intros ->. unfold Retry.
  rewrite (RetryLoop_succeeds _ 12 k fuel 0%nat tt []); simpl; auto.
Qed.

(** Two failures, then success, with the context cancelled from the second
    attempt on: three calls, two waits of 12 s. *)
Lemma oracle_resubmission_witness :
  submitJob oracleConfig cancelledThenAccepted 3 (mkProof 7) true
  = Some (mkRun tt None 3 [12; 12]) /\
  submitJob plainConfig cancelledThenAccepted 3 (mkProof 7) true
  = Some (mkRun tt (Some (Plain 1)) 1 []) /\
  submitJob oracleConfig cancelledThenAccepted 3 (mkProof 7) false
  = Some (mkRun tt (Some (Plain 1)) 1 []).
Proof.
  assert (Hfail : forall i, (i < 2)%nat ->
            retried (SubmitProof cancelledThenAccepted ValidSubmitter i (mkProof 7) true)).
  { intros i Hi. simpl. destruct (Nat.ltb_spec i 2); [exact I | lia]. }
  destruct (oracle_resubmission oracleConfig (SubmitProof cancelledThenAccepted)
              (ctxCancelled cancelledThenAccepted) (mkProof 7) 2 3
              Hfail eq_refl (le_n 3)) as (H1 & _ & H3).
  destruct (oracle_resubmission plainConfig (SubmitProof cancelledThenAccepted)
              (ctxCancelled cancelledThenAccepted) (mkProof 7) 2 3
              Hfail eq_refl (le_n 3)) as (_ & H2 & _).
  split; [exact (H1 eq_refl)|]. split; [exact (H2 eq_refl) | exact H3].
Defined.

(** ** The driver's status report *)

Lemma U64_sub_sub a b c : U64.sub (U64.sub a b) c = (a - b - c) mod 2 ^ 64.
Proof. unfold U64.sub, U64.wrap, U64.modulus. apply Zminus_mod_idemp_l. Qed.

Lemma U64_sub_add a b c : U64.sub (U64.add a b) c = (a + b - c) mod 2 ^ 64.
Proof. unfold U64.sub, U64.add, U64.wrap, U64.modulus. apply Zminus_mod_idemp_l. Qed.

(** C9. Once [GetConfig] has answered (after [k] failed attempts, retried
    [RetryDelay] = 10 s apart), [reportProtocolStatus] has read
    [maxNumBlocks] once, as the low 64 bits of the answer, and logs one line
    per tick: for a tick at which the protocol state is read, the record with
    [pendingBlocks = nextBlockId - latestVerifiedId - 1] and
    [availableSlots = latestVerifiedId + maxNumBlocks - nextBlockId], both
    modulo 2^64, and with [latestVerifiedId] and [latestVerifiedHeight] as
    read. *)
Theorem driver_status_arithmetic
        (getConfig : nat -> result Z) (k fuel : nat) (m : Z)
        (ticks : list (result StateVariables)) :
  (forall i, (i < k)%nat -> exists code, getConfig i = Fail (Plain code)) ->
  getConfig k = Ok m ->
  (k < fuel)%nat ->
  Driver.reportProtocolStatus getConfig fuel ticks
  = Some (Driver.mkReport (S k) (repeat Driver.RetryDelay k)
                          (map (Driver.onTick (BigInt.Uint64 m)) ticks)) /\
  Driver.RetryDelay = 10 /\
  (forall vars,
      Driver.onTick (BigInt.Uint64 m) (Ok vars)
      = Driver.LogStatus
          (Driver.mkStatus
             (LatestVerifiedId vars)
             (LatestVerifiedHeight vars)
             ((NextBlockId vars - LatestVerifiedId vars - 1) mod 2 ^ 64)
             ((LatestVerifiedId vars + BigInt.Uint64 m - NextBlockId vars) mod 2 ^ 64))) /\
  (forall vars,
      LatestVerifiedId vars < NextBlockId vars ->
      NextBlockId vars <= LatestVerifiedId vars + BigInt.Uint64 m ->
      U64.in_range (NextBlockId vars) -> U64.in_range (LatestVerifiedId vars) ->
      LatestVerifiedId vars + BigInt.Uint64 m < 2 ^ 64 ->
      Driver.pendingBlocks (Driver.status (BigInt.Uint64 m) vars)
      = NextBlockId vars - LatestVerifiedId vars - 1 /\
      Driver.availableSlots (Driver.status (BigInt.Uint64 m) vars)
      = LatestVerifiedId vars + BigInt.Uint64 m - NextBlockId vars).
Proof.
  intros Hfail Hok Hfuel.
  split; [|split; [reflexivity|split]].
  - unfold Driver.reportProtocolStatus, Retry.
    rewrite (RetryLoop_succeeds (Driver.readMaxNumBlocks getConfig) Driver.RetryDelay
               k fuel 0%nat 0 []).
    + simpl. unfold Driver.readMaxNumBlocks. rewrite Hok. reflexivity.
    + intros i t Hi. simpl. unfold Driver.readMaxNumBlocks.
      destruct (Hfail i Hi) as [code ->]. simpl. auto.
    + intros t. simpl. unfold Driver.readMaxNumBlocks. rewrite Hok. reflexivity.
    + exact Hfuel.
  - intros vars. unfold Driver.onTick, Driver.status.
    rewrite U64_sub_sub, U64_sub_add. reflexivity.
  - intros vars H1 H2 [H3 H4] [H5 H6] H7. unfold Driver.status. simpl.
    rewrite U64_sub_sub, U64_sub_add. unfold U64.modulus in *.
    split; apply Z.mod_small; lia.
Qed.

Lemma driver_status_arithmetic_witness :
  Driver.reportProtocolStatus configAfterTwoFailures 5 twoTicks
  = Some (Driver.mkReport 3 [10; 10]
            [Driver.LogStatus (Driver.mkStatus 7 512 2 2045);
             Driver.LogError (Plain 2);
             Driver.LogStatus (Driver.mkStatus 9 600 0 2047)]).
Proof.
  assert (Hfail : forall i, (i < 2)%nat ->
            exists code, configAfterTwoFailures i = Fail (Plain code)).
  { intros i Hi. exists 1%nat. unfold configAfterTwoFailures.
    destruct (Nat.ltb_spec i 2); [reflexivity | lia]. }
  destruct (driver_status_arithmetic configAfterTwoFailures 2 5 2048 twoTicks
              Hfail eq_refl (le_S 3 4 (le_S 3 3 (le_n 3)))) as (H & _).
  rewrite H. reflexivity.
Defined.

(** * Further properties of the code *)

(** ** Retry bookkeeping *)

Lemma waitsOf_S (b : BackOff) (n k : nat) (d : Z) :
  b n = Some d -> waitsOf b n (S k) = d :: waitsOf b (S n) k.
Proof. intros H. unfold waitsOf. simpl. rewrite H. reflexivity. Qed.

(** The loop ends at the first call whose result is not a retried error, or
    at which the back-off stops. *)
Lemma RetryLoop_ends {St : Type} (operation : nat -> St -> St * option error)
      (b : BackOff) (k : nat) : forall fuel n s ws r,
  (forall i t, (i < k)%nat ->
               retried (snd (operation (n + i)%nat t)) /\ b (n + i)%nat <> None) ->
  (forall t, snd (operation (n + k)%nat t) = r) ->
  ~ retried r \/ b (n + k)%nat = None ->
  (k < fuel)%nat ->
  RetryLoop operation b fuel n s ws
  = Some (mkRun (fst (operation (n + k)%nat (iterate_op operation n k s)))
                (retErrOf r) (S (n + k)) (ws ++ waitsOf b n k)).
Proof.
  induction k as [|k IH]; intros fuel n s ws r Hfail Hlast Hend Hfuel.
  - destruct fuel as [|fuel]; [lia|]. simpl.
    specialize (Hlast s). rewrite Nat.add_0_r in *.
    destruct (operation n s) as [s' r']. simpl in *. subst r'.
    unfold waitsOf. simpl. rewrite app_nil_r.
    destruct r as [[code | inner]|]; simpl; try reflexivity.
    destruct Hend as [Hn | Hb]; [exfalso; apply Hn; exact I|].
    rewrite Hb. reflexivity.
  - destruct fuel as [|fuel]; [lia|]. simpl.
    destruct (Hfail 0%nat s ltac:(lia)) as [Hr Hb]. rewrite Nat.add_0_r in *.
    destruct (operation n s) as [s' r0] eqn:Eop. simpl in Hr.
    destruct r0 as [[code | inner]|]; try contradiction.
    destruct (b n) as [d|] eqn:Eb; [|now contradiction Hb].
    rewrite (IH fuel (S n) s' (ws ++ [d]) r).
    + rewrite <- app_assoc. simpl. rewrite (waitsOf_S b n k d Eb).
      rewrite Nat.add_succ_r. reflexivity.
    + intros i t Hi. specialize (Hfail (S i) t ltac:(lia)).
      rewrite Nat.add_succ_r in Hfail. exact Hfail.
    + intros t. specialize (Hlast t). rewrite Nat.add_succ_r in Hlast. exact Hlast.
    + rewrite Nat.add_succ_r in Hend. exact Hend.
    + lia.
Qed.

(** An operation that leaves the state alone on failure leaves it alone over
    any number of calls. *)
Lemma iterate_op_fixed {St : Type} (operation : nat -> St -> St * option error)
      (k : nat) : forall n s,
  (forall i, (i < k)%nat -> fst (operation (n + i)%nat s) = s) ->
  iterate_op operation n k s = s.
Proof.
  induction k as [|k IH]; intros n s H; simpl; [reflexivity|].
  pose proof (H 0%nat ltac:(lia)) as H0. rewrite Nat.add_0_r in H0. rewrite H0.
  apply IH. intros i Hi. specialize (H (S i) ltac:(lia)).
  rewrite Nat.add_succ_r in H. exact H.
Qed.

(** ** Errors of [initL1Current] and of [InitFromConfig] *)

(** The error [initL1Current] returns does not depend on the prover. *)
Lemma initL1Current_error_indep rpc p q start :
  snd (initL1Current rpc p start) = snd (initL1Current rpc q start).
Proof.
  unfold initL1Current.
  repeat match goal with
         | |- context [match ?x with _ => _ end] => destruct x
         end; reflexivity.
Qed.

Lemma initL1Current_unchanged_on_error rpc p start err :
  snd (initL1Current rpc p start) = Some err -> fst (initL1Current rpc p start) = p.
Proof.
  unfold initL1Current.
  repeat match goal with
         | |- context [match ?x with _ => _ end] => destruct x
         end; simpl; intros H; try discriminate H; reflexivity.
Qed.

(** X1. [initL1Current] returns the error of the first call that fails, in
    the order [WaitTillL2Synced], [GetProtocolStateVariables] (only without
    a starting id), [L1OriginByID]; whenever it returns an error the prover
    is exactly as before, and when it returns [nil] only [l1Current] has
    changed. *)
Theorem initL1Current_errors (rpc : RPC) (p : Prover) (start : option Z) :
  (forall err, WaitTillL2Synced rpc = Some err ->
               initL1Current rpc p start = (p, Some err)) /\
  (forall err, WaitTillL2Synced rpc = None ->
               GetProtocolStateVariables rpc = Fail err ->
               initL1Current rpc p None = (p, Some err)) /\
  (forall id err, WaitTillL2Synced rpc = None ->
                  L1OriginByID rpc id = Fail err ->
                  initL1Current rpc p (Some id) = (p, Some err)) /\
  (forall stateVars err,
      WaitTillL2Synced rpc = None ->
      GetProtocolStateVariables rpc = Ok stateVars ->
      LatestVerifiedId stateVars <> 0 ->
      L1OriginByID rpc (LatestVerifiedId stateVars) = Fail err ->
      initL1Current rpc p None = (p, Some err)) /\
  (forall err, snd (initL1Current rpc p start) = Some err ->
               fst (initL1Current rpc p start) = p) /\
  (snd (initL1Current rpc p start) = None ->
   fst (initL1Current rpc p start)
   = set_l1Current p (l1Current (fst (initL1Current rpc p start)))).
Proof.
  split; [intros err H; unfold initL1Current; rewrite H; reflexivity|].
  split; [intros err H1 H2; unfold initL1Current; rewrite H1, H2; reflexivity|].
  split; [intros id err H1 H2; unfold initL1Current; rewrite H1, H2; reflexivity|].
  split.
  { intros sv err H1 H2 H3 H4. unfold initL1Current. rewrite H1, H2.
    destruct (Z.eqb_spec (LatestVerifiedId sv) 0); [contradiction|].
    rewrite H4. reflexivity. }
  split; [intros err; apply initL1Current_unchanged_on_error|].
  unfold initL1Current.
  repeat match goal with
         | |- context [match ?x with _ => _ end] => destruct x
         end; simpl; intros H; try discriminate H; reflexivity.
Qed.

Lemma initL1Current_errors_witness :
  initL1Current neverSynced (handledUpTo4 plainConfig) None
  = (handledUpTo4 plainConfig, Some (Plain 3)) /\
  initL1Current scenario_b (handledUpTo4 plainConfig) (Some 8)
  = (handledUpTo4 plainConfig, Some (Plain 0)).
Proof.
  split.
  - exact (proj1 (initL1Current_errors neverSynced (handledUpTo4 plainConfig) None)
                 (Plain 3) eq_refl).
  - exact (proj1 (proj2 (proj2 (initL1Current_errors scenario_b
                                  (handledUpTo4 plainConfig) None)))
                 8 (Plain 0) eq_refl eq_refl).
Defined.

(** The prover [InitFromConfig] returns when the cursor was never set. *)
Lemma InitFromConfig_swallow_shape (c : Config) :
  set_submitProofConcurrencyGuard
    (set_proposeConcurrencyGuard
       (set_proveNotify
          (set_proveInvalidProofCh
             (set_proveValidProofCh (zeroProver c) (Chan.make chBufferSize))
             (Chan.make chBufferSize))
          (Chan.make 1))
       (Chan.make (MaxConcurrentProvingJobs c)))
    (Chan.make (MaxConcurrentProvingJobs c))
  = mkProver c 0 0 0 (Chan.make 1) (Chan.make chBufferSize) (Chan.make chBufferSize)
             (Chan.make (MaxConcurrentProvingJobs c))
             (Chan.make (MaxConcurrentProvingJobs c)).
Proof. reflexivity. Qed.

(** X2. [InitFromConfig] drops the error of the retried [initL1Current]:
    when every attempt fails until the back-off stops, and nothing else
    goes wrong, it still returns [nil], with the cursor [l1Current] left at
    zero. *)
Theorem InitFromConfig_drops_cursor_error (env : InitEnv) (c : Config) (k fuel : nat) :
  NewClient env = None ->
  GetConfig env = None ->
  ctxErrAfter env = None ->
  Dummy c = true \/ NewZkevmRpcdProducer env = None ->
  (forall i, (i <= k)%nat -> ctxErrAt env i = false) ->
  (forall i, (i <= k)%nat ->
             retried (snd (initL1Current (rpcAt env i) (zeroProver c) (StartingBlockID c)))) ->
  (forall i, (i < k)%nat -> NewExponentialBackOff env i <> None) ->
  NewExponentialBackOff env k = None ->
  (k < fuel)%nat ->
  InitFromConfig env fuel c
  = Some (Ok (mkProver c 0 0 0 (Chan.make 1) (Chan.make chBufferSize)
                       (Chan.make chBufferSize)
                       (Chan.make (MaxConcurrentProvingJobs c))
                       (Chan.make (MaxConcurrentProvingJobs c)))).
Proof.
  intros Hnc Hgc Hafter Hprod Hctx Hfail Hgo Hstop Hfuel.
  unfold InitFromConfig. rewrite Hnc, Hgc.
  set (p1 := set_proveNotify _ _).
  set (op := fun (n : nat) (q : Prover) =>
               if ctxErrAt env n then (q, None)
               else initL1Current (rpcAt env n) q (StartingBlockID c)).
  assert (Hop : forall i q, (i <= k)%nat ->
                  retried (snd (op i q)) /\ fst (op i q) = q).
  { intros i q Hi. unfold op. rewrite (Hctx i Hi).
    rewrite (initL1Current_error_indep _ q (zeroProver c)).
    pose proof (Hfail i Hi) as Hr. split; [exact Hr|].
    destruct (snd (initL1Current (rpcAt env i) (zeroProver c) (StartingBlockID c)))
      as [err|] eqn:E; [|contradiction].
    apply (initL1Current_unchanged_on_error _ _ _ err).
    rewrite (initL1Current_error_indep _ q (zeroProver c)). exact E. }
  unfold Retry.
  rewrite (RetryLoop_ends op (NewExponentialBackOff env) k fuel 0%nat p1 []
             (snd (op k p1))).
  - simpl. rewrite Hafter.
    rewrite (iterate_op_fixed op k 0%nat p1)
      by (intros i Hi; apply Hop; lia).
    destruct (Hop k p1 (le_n k)) as [_ ->].
    unfold p1. rewrite InitFromConfig_swallow_shape.
    destruct Hprod as [-> | Hp]; [reflexivity|].
    destruct (Dummy c); [reflexivity | rewrite Hp; reflexivity].
  - intros i t Hi. simpl. split; [apply Hop; lia | apply Hgo; exact Hi].
  - intros t. simpl. unfold op. rewrite (Hctx k (le_n k)).
    apply initL1Current_error_indep.
  - right. exact Hstop.
  - exact Hfuel.
Qed.

Lemma InitFromConfig_drops_cursor_error_witness :
  InitFromConfig givingUpInit 5 plainConfig
  = Some (Ok (mkProver plainConfig 0 0 0 (Chan.make 1) (Chan.make chBufferSize)
                       (Chan.make chBufferSize) (Chan.make 2) (Chan.make 2))).
Proof.
  apply (InitFromConfig_drops_cursor_error givingUpInit plainConfig 2 5
           eq_refl eq_refl eq_refl (or_intror eq_refl)).
  - intros i _. reflexivity.
  - intros i _. exact I.
  - intros i Hi. simpl. destruct (Nat.ltb_spec i 2); [discriminate | lia].
  - reflexivity.
  - exact (le_S 3 4 (le_S 3 3 (le_n 3))).
Defined.

(** X3. The closure retried by [InitFromConfig] tests the context first: when
    the context is cancelled as an attempt starts, after any number of
    failed attempts, the retry ends there and [InitFromConfig] returns the
    context's error. *)
Theorem InitFromConfig_cancelled (env : InitEnv) (c : Config) (k fuel : nat)
        (err : error) :
  NewClient env = None ->
  GetConfig env = None ->
  (forall i, (i < k)%nat ->
             ctxErrAt env i = false /\
             retried (snd (initL1Current (rpcAt env i) (zeroProver c) (StartingBlockID c))) /\
             NewExponentialBackOff env i <> None) ->
  ctxErrAt env k = true ->
  ctxErrAfter env = Some err ->
  (k < fuel)%nat ->
  InitFromConfig env fuel c = Some (Fail err).
Proof.
  intros Hnc Hgc Hfail Hctx Hafter Hfuel.
  unfold InitFromConfig. rewrite Hnc, Hgc.
  set (p1 := set_proveNotify _ _).
  set (op := fun (n : nat) (q : Prover) =>
               if ctxErrAt env n then (q, None)
               else initL1Current (rpcAt env n) q (StartingBlockID c)).
  unfold Retry.
  rewrite (RetryLoop_ends op (NewExponentialBackOff env) k fuel 0%nat p1 [] None).
  - rewrite Hafter. reflexivity.
  - intros i t Hi. simpl. destruct (Hfail i Hi) as (H1 & H2 & H3).
    split; [|exact H3]. unfold op. rewrite H1.
    rewrite (initL1Current_error_indep _ t (zeroProver c)). exact H2.
  - intros t. simpl. unfold op. rewrite Hctx. reflexivity.
  - left. intros H. exact H.
  - exact Hfuel.
Qed.

Lemma InitFromConfig_cancelled_witness :
  InitFromConfig cancelledInit 5 plainConfig = Some (Fail (Plain 9)).
Proof.
  apply (InitFromConfig_cancelled cancelledInit plainConfig 2 5 (Plain 9)
           eq_refl eq_refl).
  - intros i Hi. simpl. split; [|split; [exact I | discriminate]].
    destruct i as [|[|i]]; [reflexivity | reflexivity | lia].
  - reflexivity.
  - reflexivity.
  - exact (le_S 3 4 (le_S 3 3 (le_n 3))).
Defined.

(** ** The driver's synchronisation *)

Lemma iterate_doSync (env : DriverSync.SyncEnv) (k : nat) : forall n synced,
  (forall i, (i < k)%nat -> DriverSync.ctxErr env (n + i)%nat = false) ->
  iterate_op (DriverSync.doSync env) n k synced
  = synced ++ map (DriverSync.GetL1Head env) (seq n k).
Proof.
  induction k as [|k IH]; intros n synced H; simpl; [now rewrite app_nil_r|].
  pose proof (H 0%nat ltac:(lia)) as H0. rewrite Nat.add_0_r in H0.
  unfold DriverSync.doSync at 2. rewrite H0. simpl.
  rewrite IH.
  - rewrite <- app_assoc. reflexivity.
  - intros i Hi. specialize (H (S i) ltac:(lia)). rewrite Nat.add_succ_r in H. exact H.
Qed.

(** X4. [doSyncWithBackoff] reads the L1 head afresh at every attempt.
    After [k] failed attempts it ends without error in one more call of
    [doSync]: if the syncer then accepts, the heads handed to [Sync] are
    those current at attempts 0 to [k]; if instead the context is cancelled
    when that call starts, [Sync] is not called again. *)
Theorem doSyncWithBackoff_ends (env : DriverSync.SyncEnv) (b : BackOff) (k fuel : nat) :
  (forall i, (i < k)%nat ->
             DriverSync.ctxErr env i = false /\
             retried (DriverSync.Sync env i (DriverSync.GetL1Head env i)) /\
             b i <> None) ->
  (k < fuel)%nat ->
  (DriverSync.ctxErr env k = false ->
   DriverSync.Sync env k (DriverSync.GetL1Head env k) = None ->
   DriverSync.doSyncWithBackoff env b fuel
   = Some (mkRun (map (DriverSync.GetL1Head env) (seq 0 (S k))) None (S k)
                 (waitsOf b 0 k))) /\
  (DriverSync.ctxErr env k = true ->
   DriverSync.doSyncWithBackoff env b fuel
   = Some (mkRun (map (DriverSync.GetL1Head env) (seq 0 k)) None (S k)
                 (waitsOf b 0 k))).
Proof.
  intros Hfail Hfuel.
  assert (Hpre : forall i t, (i < k)%nat ->
            retried (snd (DriverSync.doSync env (0 + i) t)) /\ b (0 + i)%nat <> None).
  { intros i t Hi. simpl. destruct (Hfail i Hi) as (H1 & H2 & H3).
    unfold DriverSync.doSync. rewrite H1. simpl. auto. }
  assert (Hit : iterate_op (DriverSync.doSync env) 0 k []
                = map (DriverSync.GetL1Head env) (seq 0 k)).
  { rewrite iterate_doSync; [reflexivity|]. intros i Hi. apply Hfail. exact Hi. }
  split.
  - intros Hctx Hok. unfold DriverSync.doSyncWithBackoff, Retry.
    rewrite (RetryLoop_ends (DriverSync.doSync env) b k fuel 0%nat [] [] None Hpre).
    + simpl Nat.add. rewrite Hit. unfold DriverSync.doSync. rewrite Hctx. simpl fst.
      rewrite seq_S, map_app. reflexivity.
    + intros t. simpl. unfold DriverSync.doSync. rewrite Hctx. exact Hok.
    + left. intros H. exact H.
    + exact Hfuel.
  - intros Hctx. unfold DriverSync.doSyncWithBackoff, Retry.
    rewrite (RetryLoop_ends (DriverSync.doSync env) b k fuel 0%nat [] [] None Hpre).
    + simpl Nat.add. rewrite Hit. unfold DriverSync.doSync. rewrite Hctx. reflexivity.
    + intros t. simpl. unfold DriverSync.doSync. rewrite Hctx. reflexivity.
    + left. intros H. exact H.
    + exact Hfuel.
Qed.

Lemma doSyncWithBackoff_ends_witness :
  DriverSync.doSyncWithBackoff flakySync (fun _ => Some 1) 5
  = Some (mkRun [100; 101; 102] None 3 [1; 1]) /\
  DriverSync.doSyncWithBackoff cancelledSync (fun _ => Some 1) 5
  = Some (mkRun [100; 101] None 3 [1; 1]).
Proof.
  split.
  - apply (proj1 (doSyncWithBackoff_ends flakySync (fun _ => Some 1) 2 5
             ltac:(intros i Hi; destruct i as [|[|i]];
                   [repeat split; try exact I; discriminate
                   |repeat split; try exact I; discriminate | lia])
             (le_S 3 4 (le_S 3 3 (le_n 3))))); reflexivity.
  - apply (proj2 (doSyncWithBackoff_ends cancelledSync (fun _ => Some 1) 2 5
             ltac:(intros i Hi; destruct i as [|[|i]];
                   [repeat split; try exact I; discriminate
                   |repeat split; try exact I; discriminate | lia])
             (le_S 3 4 (le_S 3 3 (le_n 3))))); reflexivity.
Defined.

(** ** The proving job *)

(** X5. When a proving job calls [RequestProof], it calls it for its own
    event, the protocol state was read with the block's id above
    [LatestVerifiedId], the fork choice for the block and its parent hash
    (the L2 genesis header's hash for id 1, otherwise the L2 block hash of
    the L1Origin of id - 1) names no prover, the valid submitter is the one
    asked exactly when the validator's hint is [HintOK], and the job returns
    what [RequestProof] returns. *)
Theorem handleBlockProposedEvent_request
        (rpc : RPC) (requestErr : submitter -> option error)
        (event ev : BlockProposed) (sub : submitter) :
  requested (handleBlockProposedEvent rpc requestErr event) = Some (sub, ev) ->
  ev = event /\
  (exists stateVars,
      GetProtocolStateVariables rpc = Ok stateVars /\
      LatestVerifiedId stateVars < BigInt.Uint64 (Id event)) /\
  (exists parentHash,
      (if Id event =? 1
       then HeaderByNumber_Hash rpc 0 = Ok parentHash
       else exists origin, WaitL1Origin rpc (Id event - 1) = Ok origin /\
                           L2BlockHash origin = parentHash) /\
      GetForkChoice_Prover rpc (Id event) parentHash = Ok 0) /\
  (exists data hint,
      TransactionInBlock_Data rpc (Raw_BlockHash event) (Raw_TxIndex event) = Ok data /\
      ValidateTxList rpc (Id event) data = Ok hint /\
      (sub = ValidSubmitter <-> hint = HintOK)) /\
  jobErr (handleBlockProposedEvent rpc requestErr event) = requestErr sub.
Proof.
  unfold handleBlockProposedEvent, isBlockVerified, NeedNewProof.
  destruct (GetProtocolStateVariables rpc) as [sv|] eqn:Ev; [|discriminate].
  destruct (Z.leb_spec (BigInt.Uint64 (Id event)) (LatestVerifiedId sv)) as [|Hlt];
    [discriminate|].
  assert (Hparent : forall parent : result Z,
             (if Id event =? 1 then HeaderByNumber_Hash rpc 0
              else match WaitL1Origin rpc (Id event - 1) with
                   | Ok o => Ok (L2BlockHash o)
                   | Fail e => Fail e
                   end) = parent ->
             forall h, parent = Ok h ->
             if Id event =? 1 then HeaderByNumber_Hash rpc 0 = Ok h
             else exists o, WaitL1Origin rpc (Id event - 1) = Ok o /\ L2BlockHash o = h).
  { intros parent <- h. destruct (Id event =? 1); [auto|].
    destruct (WaitL1Origin rpc (Id event - 1)) as [o|]; [|discriminate].
    intros [= <-]. eauto. }
  specialize (Hparent _ eq_refl).
  destruct (if Id event =? 1 then HeaderByNumber_Hash rpc 0
            else match WaitL1Origin rpc (Id event - 1) with
                 | Ok o => Ok (L2BlockHash o)
                 | Fail e => Fail e
                 end) as [h|]; [|discriminate].
  specialize (Hparent h eq_refl).
  destruct (GetForkChoice_Prover rpc (Id event) h) as [pr|] eqn:Ef; [|discriminate].
  destruct (Z.eqb_spec pr 0) as [->|]; [|discriminate]. simpl.
  destruct (TransactionInBlock_Data rpc (Raw_BlockHash event) (Raw_TxIndex event))
    as [data|] eqn:Et; [|discriminate].
  destruct (ValidateTxList rpc (Id event) data) as [hint|] eqn:Eh; [|discriminate].
  destruct hint; simpl; intros [= <- <-];
    (split; [reflexivity|]);
    (split; [exists sv; split; [reflexivity | exact Hlt]|]);
    (split; [exists h; split; assumption|]);
    (split; [|reflexivity]);
    eexists; eexists; (split; [reflexivity|]); (split; [exact Eh|]);
    split; intros H; try reflexivity; discriminate H.
Qed.

Lemma handleBlockProposedEvent_request_witness :
  jobErr (handleBlockProposedEvent rejectingValidator
            (fun sub => match sub with
                        | ValidSubmitter => None
                        | InvalidSubmitter => Some (Plain 6)
                        end)
            (proposal 9 490))
  = Some (Plain 6).
Proof.
  exact (proj2 (proj2 (proj2 (proj2
           (handleBlockProposedEvent_request rejectingValidator
              (fun sub => match sub with
                          | ValidSubmitter => None
                          | InvalidSubmitter => Some (Plain 6)
                          end)
              (proposal 9 490) (proposal 9 490) InvalidSubmitter eq_refl))))).
Defined.

(** ** Gauges and status fields *)

(** X6. The prover's pending-blocks gauge, computed through a [uint64]
    subtraction and a conversion to [int64], is the signed difference
    [NextBlockId - LatestVerifiedId - 1] whenever that fits 64 signed bits:
    it is -1 when the two ids are equal, where the driver's status line
    shows 2^64 - 1. *)
Theorem pendingBlocksMetric_signed (vars : StateVariables) (maxNumBlocks : Z) :
  - 2 ^ 63 <= NextBlockId vars - LatestVerifiedId vars - 1 < 2 ^ 63 ->
  pendingBlocksMetric (Ok vars)
  = PendingBlocksGauge (NextBlockId vars - LatestVerifiedId vars - 1) /\
  (NextBlockId vars = LatestVerifiedId vars ->
   pendingBlocksMetric (Ok vars) = PendingBlocksGauge (- 1) /\
   Driver.pendingBlocks (Driver.status maxNumBlocks vars) = 2 ^ 64 - 1).
Proof.
  intros Hr.
  assert (E : pendingBlocksMetric (Ok vars)
              = PendingBlocksGauge (NextBlockId vars - LatestVerifiedId vars - 1)).
  { unfold pendingBlocksMetric. f_equal. rewrite U64_sub_sub.
    set (d := NextBlockId vars - LatestVerifiedId vars - 1) in *.
    unfold Int64. destruct (Z_lt_le_dec d 0) as [Hneg | Hpos].
    - replace (d mod 2 ^ 64) with (d + 2 ^ 64).
      + destruct (Z.ltb_spec (d + 2 ^ 64) (2 ^ 63)); lia.
      + apply (Z.mod_unique_pos _ _ (-1)); lia.
    - rewrite Z.mod_small by lia.
      destruct (Z.ltb_spec d (2 ^ 63)); lia. }
  split; [exact E|].
  intros Heq. split.
  - rewrite E. f_equal. lia.
  - unfold Driver.status. simpl. rewrite U64_sub_sub.
    replace (NextBlockId vars - LatestVerifiedId vars - 1) with (- 1) by lia.
    reflexivity.
Qed.

Lemma pendingBlocksMetric_signed_witness :
  pendingBlocksMetric (Ok (mkVars 100 7 500 7)) = PendingBlocksGauge (- 1) /\
  pendingBlocksMetric (Ok (mkVars 100 7 500 10)) = PendingBlocksGauge 2.
Proof.
  split.
  - refine (proj1 (proj2 (pendingBlocksMetric_signed (mkVars 100 7 500 7) 2048 _)
                         eq_refl)).
    simpl. lia.
  - refine (proj1 (pendingBlocksMetric_signed (mkVars 100 7 500 10) 2048 _)).
    simpl. lia.
Defined.

(** X7. In every "Protocol status" record the two computed fields are
    [uint64] values that add up, modulo 2^64, to [maxNumBlocks - 1]:
    the slots reported as available are exactly those not reported as
    pending. *)
Theorem status_fields_add_up (maxNumBlocks : Z) (vars : StateVariables) :
  U64.in_range (Driver.pendingBlocks (Driver.status maxNumBlocks vars)) /\
  U64.in_range (Driver.availableSlots (Driver.status maxNumBlocks vars)) /\
  (Driver.pendingBlocks (Driver.status maxNumBlocks vars)
   + Driver.availableSlots (Driver.status maxNumBlocks vars)) mod 2 ^ 64
  = (maxNumBlocks - 1) mod 2 ^ 64.
Proof.
  unfold Driver.status. simpl.
  split; [apply U64_wrap_in_range|]. split; [apply U64_wrap_in_range|].
  rewrite U64_sub_sub, U64_sub_add.
  rewrite Zplus_mod_idemp_l, Zplus_mod_idemp_r. f_equal. lia.
Qed.

(** ** What one step does to the cursor, the trace and the jobs *)

(** A step either leaves the cursor fields and the list of dispatched events
    alone (and the running proving jobs too, but for one that leaves), or it
    is the dispatch of one event: by a call of [onBlockProposed] on an id
    above [lastHandledBlockID], or by the completion of a parked send. *)
Lemma step_shape w a w' :
  step w a = Some w' ->
  (l1Current (prover w') = l1Current (prover w) /\
   lastHandledBlockID (prover w') = lastHandledBlockID (prover w) /\
   dispatched (trace w') = dispatched (trace w) /\
   (provingJobs w' = provingJobs w \/
    exists i, provingJobs w' = remove_nth i (provingJobs w))) \/
  (exists event,
      dispatch (prover w) event = Some (prover w') /\
      dispatched (trace w') = dispatched (trace w) ++ [event] /\
      provingJobs w' = provingJobs w ++ [event] /\
      ((a = Propose event /\ lastHandledBlockID (prover w) < BigInt.Uint64 (Id event)) \/
       (a = Unpark /\ loop w = ParkedPropose event))).
Proof.
  intros H. unfold step in H; cbv zeta in H.
  destruct a.
  - destruct (loop w) eqn:El; try discriminate H. injection H as <-. simpl.
    destruct (onBlockProposed_cases (prover w) event) as [[Ea Ed] | (Hd & Ee & Ep)].
    + left. rewrite Ea, dispatched_app, Ed, !app_nil_r. auto.
    + right. exists event.
      assert (Hne : dispatched (effects (onBlockProposed (prover w) event)) <> [])
        by (rewrite Ee; discriminate).
      pose proof (onBlockProposed_checked (prover w) event (or_introl Hne))
        as (_ & _ & Hlt & _).
      rewrite dispatched_app, Ee. simpl.
      split; [exact Hd|]. split; [reflexivity|]. split; [reflexivity|].
      left. split; [reflexivity | exact Hlt].
  - destruct (loop w) eqn:El; try discriminate H.
    + destruct (dispatch (prover w) event) eqn:Ed; [|discriminate H]. injection H as <-.
      right. exists event. simpl. rewrite dispatched_app. simpl.
      split; [exact Ed|]. split; [reflexivity|]. split; [reflexivity|].
      right. split; reflexivity.
    + destruct (acquireSubmit (prover w)) eqn:Ea; [|discriminate H]. injection H as <-.
      left. frames. simpl. auto.
  - destruct (i <? length (provingJobs w))%nat; [|discriminate H].
    destruct (Chan.recv (proposeConcurrencyGuard (prover w))) as [[x g]|];
      [|discriminate H]. injection H as <-. left. simpl. eauto 6.
  - destruct (Chan.send (resultCh (prover w) isValidProof) pwh); [|discriminate H].
    injection H as <-. left. simpl.
    destruct (set_resultCh_frame (prover w) isValidProof t) as (_ & _ & _ & _ & -> & ->).
    auto.
  - destruct (loop w) eqn:El; try discriminate H.
    destruct (Chan.recv (resultCh (prover w) isValidProof)) as [[x c]|];
      [|discriminate H]. injection H as <-. left.
    destruct (set_resultCh_frame (prover w) isValidProof c) as (_ & _ & _ & _ & E1 & E2).
    unfold submitProofOp.
    destruct (acquireSubmit (set_resultCh (prover w) isValidProof c)) eqn:Ea;
      simpl; frames; repeat split; try congruence; auto.
  - destruct (i <? length (submitJobs w))%nat; [|discriminate H].
    destruct (Chan.recv (submitProofConcurrencyGuard (prover w))) as [[x g]|];
      [|discriminate H]. injection H as <-. left. simpl. auto.
  - destruct (loop w) eqn:El; try discriminate H. injection H as <-. left. simpl. auto.
  - destruct (loop w) eqn:El; try discriminate H.
    destruct (Chan.recv (proveNotify (prover w))) as [[x c]|]; [|discriminate H].
    injection H as <-. left. simpl. auto.
  - destruct (loop w) eqn:El; try discriminate H. injection H as <-. left. simpl. auto.
Qed.

Lemma lastDispatched_snoc w w' event :
  dispatched (trace w') = dispatched (trace w) ++ [event] ->
  lastDispatched w' = Some event.
Proof. intros H. unfold lastDispatched. rewrite H, rev_app_distr. reflexivity. Qed.

(** X8. Along every schedule the cursor belongs to the last dispatched
    event: [l1Current] is the L1 block number of that event and
    [lastHandledBlockID] its id; as long as nothing was dispatched both are
    as [Start] found them. *)
Theorem cursor_follows_last_dispatch (p : Prover) (sched : list action) :
  match lastDispatched (run (start p) sched) with
  | Some event =>
      l1Current (prover (run (start p) sched)) = Raw_BlockNumber event /\
      lastHandledBlockID (prover (run (start p) sched)) = BigInt.Uint64 (Id event)
  | None =>
      l1Current (prover (run (start p) sched)) = l1Current p /\
      lastHandledBlockID (prover (run (start p) sched)) = lastHandledBlockID p
  end.
Proof.
  apply (run_invariant
           (fun w => match lastDispatched w with
                     | Some event =>
                         l1Current (prover w) = Raw_BlockNumber event /\
                         lastHandledBlockID (prover w) = BigInt.Uint64 (Id event)
                     | None =>
                         l1Current (prover w) = l1Current p /\
                         lastHandledBlockID (prover w) = lastHandledBlockID p
                     end)).
  - intros w a w' Hw H.
    destruct (step_shape w a w' H) as [(E1 & E2 & E3 & _) | (event & Hd & Et & _)].
    + unfold lastDispatched in *. rewrite E3, E1, E2. exact Hw.
    + rewrite (lastDispatched_snoc w w' event Et).
      apply dispatch_frame in Hd. destruct Hd as (_ & _ & _ & _ & _ & _ & H1 & H2).
      split; assumption.
  - simpl. split; reflexivity.
Qed.

(** ** The running jobs *)

Lemma remove_nth_cons {A : Type} (x : A) (l : list A) (i : nat) :
  remove_nth (S i) (x :: l) = x :: remove_nth i l.
Proof. reflexivity. Qed.

Lemma remove_nth_incl {A : Type} (l : list A) : forall i, incl (remove_nth i l) l.
Proof.
  induction l as [|x l IH]; intros i.
  - unfold remove_nth. rewrite firstn_nil, skipn_nil. apply incl_refl.
  - destruct i as [|i].
    + unfold remove_nth. simpl. apply incl_tl, incl_refl.
    + rewrite remove_nth_cons. apply incl_cons; [left; reflexivity|].
      apply incl_tl, IH.
Qed.

Lemma remove_nth_sorted (l : list Z) : forall i,
  StronglySorted Z.lt l -> StronglySorted Z.lt (remove_nth i l).
Proof.
  induction l as [|x l IH]; intros i Hs.
  - unfold remove_nth. rewrite firstn_nil, skipn_nil. constructor.
  - inversion Hs as [|? ? Hl Hx]; subst. destruct i as [|i].
    + unfold remove_nth. simpl. exact Hl.
    + rewrite remove_nth_cons. constructor; [apply IH; exact Hl|].
      rewrite Forall_forall in *. intros y Hy. apply Hx.
      exact (remove_nth_incl l i y Hy).
Qed.

Lemma ids_remove_nth (l : list BlockProposed) (i : nat) :
  ids (remove_nth i l) = remove_nth i (ids l).
Proof. unfold ids, remove_nth. rewrite map_app, firstn_map, skipn_map. reflexivity. Qed.

Lemma sorted_NoDup (l : list Z) : StronglySorted Z.lt l -> NoDup l.
Proof.
  induction 1 as [|x l Hs IH Hx]; constructor; [|exact IH].
  intros Hin. rewrite Forall_forall in Hx. specialize (Hx x Hin). lia.
Qed.

(** Running jobs in increasing id order, none above [lastHandledBlockID],
    each of them dispatched earlier. *)
Lemma step_jobs_sorted p0 w a w' :
  DispatchInv p0 w ->
  StronglySorted Z.lt (ids (provingJobs w)) /\
  Forall (fun i => i <= lastHandledBlockID (prover w)) (ids (provingJobs w)) /\
  incl (provingJobs w) (dispatched (trace w)) ->
  step w a = Some w' ->
  StronglySorted Z.lt (ids (provingJobs w')) /\
  Forall (fun i => i <= lastHandledBlockID (prover w')) (ids (provingJobs w')) /\
  incl (provingJobs w') (dispatched (trace w')).
Proof.
  intros I (Hs & Hb & Hi) H.
  destruct (step_shape w a w' H)
    as [(_ & E2 & E3 & [Ej | [i Ej]]) | (event & Hd & Et & Ej & Hwhy)].
  - rewrite Ej, E2, E3. auto.
  - rewrite Ej, E2, E3, ids_remove_nth. split; [apply remove_nth_sorted; exact Hs|].
    split.
    + rewrite Forall_forall in *. intros y Hy. apply Hb.
      exact (remove_nth_incl _ i y Hy).
    + intros y Hy. apply Hi. exact (remove_nth_incl _ i y Hy).
  - assert (Hlt : lastHandledBlockID (prover w) < BigInt.Uint64 (Id event)).
    { destruct Hwhy as [[_ Hlt] | [_ Hl]]; [exact Hlt|].
      exact (proj1 (inv_parked p0 w I event Hl)). }
    apply dispatch_frame in Hd. destruct Hd as (_ & _ & _ & _ & _ & _ & _ & El).
    rewrite Ej, Et, El, ids_app. simpl. split; [|split].
    + apply StronglySorted_snoc; [exact Hs|].
      eapply Forall_impl; [|exact Hb]. simpl. intros; lia.
    + apply Forall_app. split.
      * eapply Forall_impl; [|exact Hb]. simpl. intros; lia.
      * constructor; [lia | constructor].
    + apply incl_app; [apply incl_appl; exact Hi | apply incl_appr, incl_refl].
Qed.

(** X9. Along every schedule the proving jobs that are running are jobs for
    pairwise different block ids, listed in increasing id order; each of
    them was dispatched earlier and none has an id above
    [lastHandledBlockID]. *)
Theorem running_jobs_distinct (p : Prover) (sched : list action) :
  StronglySorted Z.lt (ids (provingJobs (run (start p) sched))) /\
  NoDup (ids (provingJobs (run (start p) sched))) /\
  Forall (fun i => i <= lastHandledBlockID (prover (run (start p) sched)))
         (ids (provingJobs (run (start p) sched))) /\
  incl (provingJobs (run (start p) sched)) (dispatched (trace (run (start p) sched))).
Proof.
  assert (K : DispatchInv p (run (start p) sched) /\
              (StronglySorted Z.lt (ids (provingJobs (run (start p) sched))) /\
               Forall (fun i => i <= lastHandledBlockID (prover (run (start p) sched)))
                      (ids (provingJobs (run (start p) sched))) /\
               incl (provingJobs (run (start p) sched))
                    (dispatched (trace (run (start p) sched))))).
  { apply (run_invariant
             (fun w => DispatchInv p w /\
                       (StronglySorted Z.lt (ids (provingJobs w)) /\
                        Forall (fun i => i <= lastHandledBlockID (prover w))
                               (ids (provingJobs w)) /\
                        incl (provingJobs w) (dispatched (trace w))))).
    - intros w a w' [I J] H. split.
      + eapply step_DispatchInv; eauto.
      + eapply step_jobs_sorted; eauto.
    - split; [apply start_DispatchInv|]. simpl.
      split; [constructor|]. split; [constructor | apply incl_refl]. }
  destruct K as (_ & Hs & Hb & Hi).
  split; [exact Hs|]. split; [apply sorted_NoDup; exact Hs|]. split; assumption.
Qed.

(** ** Parked sends *)

Lemma send_room {A : Type} (c : Chan.t A) (x : A) :
  (Chan.len c < Chan.cap c)%nat ->
  Chan.send c x = Some (Chan.mk (Chan.cap c) (Chan.buf c ++ [x])).
Proof.
  intros H. unfold Chan.send, Chan.full.
  destruct (Nat.leb_spec (Chan.cap c) (Chan.len c)); [lia | reflexivity].
Qed.

Lemma recv_nonempty {A : Type} (c : Chan.t A) :
  (0 < Chan.len c)%nat -> exists x c', Chan.recv c = Some (x, c').
Proof.
  unfold Chan.recv, Chan.len. destruct (Chan.buf c); simpl; [lia | eauto].
Qed.

Lemma dispatch_room p event :
  (Chan.len (proposeConcurrencyGuard p) < Chan.cap (proposeConcurrencyGuard p))%nat ->
  exists p', dispatch p event = Some p'.
Proof. intros H. unfold dispatch. rewrite (send_room _ tt H). eauto. Qed.

Lemma acquireSubmit_room p :
  (Chan.len (submitProofConcurrencyGuard p)
   < Chan.cap (submitProofConcurrencyGuard p))%nat ->
  exists p', acquireSubmit p = Some p'.
Proof. intros H. unfold acquireSubmit. rewrite (send_room _ tt H). eauto. Qed.

Lemma run_two w a b :
  run w [a; b]
  = match step w a with
    | Some w1 => match step w1 b with Some w2 => w2 | None => w1 end
    | None => match step w b with Some w2 => w2 | None => w end
    end.
Proof. simpl. destruct (step w a) as [w1|]; reflexivity. Qed.

Lemma step_ProvingJobExit w i :
  step w (ProvingJobExit i)
  = if (i <? length (provingJobs w))%nat then
      match Chan.recv (proposeConcurrencyGuard (prover w)) with
      | Some (_, g) => Some (mkWorld (set_proposeConcurrencyGuard (prover w) g) (loop w)
                                     (remove_nth i (provingJobs w))
                                     (submitJobs w) (trace w))
      | None => None
      end
    else None.
Proof. unfold step. destruct (loop w); reflexivity. Qed.

Lemma step_SubmitJobExit w i :
  step w (SubmitJobExit i)
  = if (i <? length (submitJobs w))%nat then
      match Chan.recv (submitProofConcurrencyGuard (prover w)) with
      | Some (_, g) => Some (mkWorld (set_submitProofConcurrencyGuard (prover w) g) (loop w)
                                     (provingJobs w)
                                     (remove_nth i (submitJobs w)) (trace w))
      | None => None
      end
    else None.
Proof. unfold step. destruct (loop w); reflexivity. Qed.

Lemma step_Unpark_propose w event :
  loop w = ParkedPropose event ->
  step w Unpark
  = match dispatch (prover w) event with
    | Some p' => Some (mkWorld p' Running (provingJobs w ++ [event])
                               (submitJobs w) (trace w ++ [Go event]))
    | None => None
    end.
Proof. intros H. unfold step. rewrite H. reflexivity. Qed.

Lemma step_Unpark_submit w pwh isValidProof :
  loop w = ParkedSubmit pwh isValidProof ->
  step w Unpark
  = match acquireSubmit (prover w) with
    | Some p' => Some (mkWorld p' Running (provingJobs w)
                               (submitJobs w ++ [(pwh, isValidProof)]) (trace w))
    | None => None
    end.
Proof. intros H. unfold step. rewrite H. reflexivity. Qed.

(** X10. No parked send is stuck while the guards have at least one place: a
    call of [onBlockProposed] parked on the proving guard dispatches its
    event as soon as the oldest running proving job has left (or at once if
    none is running), and a parked [submitProofOp] starts its submission job
    likewise after the oldest submission job has left. *)
Theorem parked_send_completes (env : InitEnv) (fuel : nat) (c : Config) (p : Prover)
        (sched : list action) :
  InitFromConfig env fuel c = Some (Ok p) ->
  (1 <= MaxConcurrentProvingJobs c)%nat ->
  (forall event,
      loop (run (start p) sched) = ParkedPropose event ->
      loop (run (run (start p) sched) [ProvingJobExit 0; Unpark]) = Running /\
      dispatched (trace (run (run (start p) sched) [ProvingJobExit 0; Unpark]))
      = dispatched (trace (run (start p) sched)) ++ [event] /\
      In event (provingJobs (run (run (start p) sched) [ProvingJobExit 0; Unpark]))) /\
  (forall pwh isValidProof,
      loop (run (start p) sched) = ParkedSubmit pwh isValidProof ->
      loop (run (run (start p) sched) [SubmitJobExit 0; Unpark]) = Running /\
      In (pwh, isValidProof)
         (submitJobs (run (run (start p) sched) [SubmitJobExit 0; Unpark]))).
Proof.
  intros Hinit Hcap.
  apply InitFromConfig_channels in Hinit. destruct Hinit as (_ & _ & _ & _ & Hg1 & Hg2).
  assert (G : GuardsCount (MaxConcurrentProvingJobs c) (run (start p) sched)).
  { apply run_GuardsCount. unfold GuardsCount, start. simpl. rewrite Hg1, Hg2.
    unfold Chan.len. simpl. repeat split; lia. }
  set (w := run (start p) sched) in *.
  destruct G as (Hc1 & Hc2 & Hl1 & Hl2 & Hb1 & Hb2).
  split.
  - intros event Hl. rewrite run_two, step_ProvingJobExit.
    destruct (provingJobs w) as [|j js] eqn:Ej.
    + change (0 <? length (@nil BlockProposed))%nat with false. cbv iota.
      rewrite (step_Unpark_propose w event Hl).
      destruct (dispatch_room (prover w) event) as [p' Hd]; [simpl in *; lia|].
      rewrite Hd. simpl. rewrite dispatched_app, Ej. simpl. auto.
    + change (0 <? length (j :: js))%nat with true. cbv iota.
      destruct (recv_nonempty (proposeConcurrencyGuard (prover w))) as (x & g & Hr);
        [simpl in *; lia|].
      rewrite Hr. cbv iota. rewrite (step_Unpark_propose _ event) by exact Hl.
      apply recv_Some in Hr. destruct Hr as [Hgc Hgl].
      destruct (dispatch_room (set_proposeConcurrencyGuard (prover w) g) event)
        as [p' Hd]; [simpl in *; lia|].
      simpl prover. rewrite Hd. simpl. rewrite dispatched_app. simpl.
      split; [reflexivity|]. split; [reflexivity|].
      apply in_or_app. right. left. reflexivity.
  - intros pwh v Hl. rewrite run_two, step_SubmitJobExit.
    destruct (submitJobs w) as [|j js] eqn:Ej.
    + change (0 <? length (@nil (ProofWithHeader * bool)))%nat with false. cbv iota.
      rewrite (step_Unpark_submit w pwh v Hl).
      destruct (acquireSubmit_room (prover w)) as [p' Hd]; [simpl in *; lia|].
      rewrite Hd. simpl. rewrite Ej. simpl. auto.
    + change (0 <? length (j :: js))%nat with true. cbv iota.
      destruct (recv_nonempty (submitProofConcurrencyGuard (prover w))) as (x & g & Hr);
        [simpl in *; lia|].
      rewrite Hr. cbv iota. rewrite (step_Unpark_submit _ pwh v) by exact Hl.
      apply recv_Some in Hr. destruct Hr as [Hgc Hgl].
      destruct (acquireSubmit_room (set_submitProofConcurrencyGuard (prover w) g))
        as [p' Hd]; [simpl in *; lia|].
      simpl prover. rewrite Hd. simpl.
      split; [reflexivity|]. apply in_or_app. right. left. reflexivity.
Qed.

(** One place: the second proposal waits for the first job, the second proof
    for the first submission. *)
Lemma parked_send_completes_witness :
  dispatched (trace (run (run (start (initialised scenario_a onePlaceConfig))
                              [Propose (proposal 1 10); Propose (proposal 2 11)])
                         [ProvingJobExit 0; Unpark]))
  = dispatched (trace (run (start (initialised scenario_a onePlaceConfig))
                           [Propose (proposal 1 10); Propose (proposal 2 11)]))
    ++ [proposal 2 11] /\
  In (mkProof 2, false)
     (submitJobs (run (run (start (initialised scenario_a onePlaceConfig))
                           [ProofProduced true (mkProof 1); ProofProduced false (mkProof 2);
                            SelectProof true; SelectProof false])
                      [SubmitJobExit 0; Unpark])).
Proof.
  split.
  - exact (proj1 (proj2 (proj1
             (parked_send_completes (quietInit scenario_a) 1 onePlaceConfig
                (initialised scenario_a onePlaceConfig)
                [Propose (proposal 1 10); Propose (proposal 2 11)]
                eq_refl (le_n 1))
             (proposal 2 11) eq_refl))).
  - exact (proj2 (proj2
             (parked_send_completes (quietInit scenario_a) 1 onePlaceConfig
                (initialised scenario_a onePlaceConfig)
                [ProofProduced true (mkProof 1); ProofProduced false (mkProof 2);
                 SelectProof true; SelectProof false]
                eq_refl (le_n 1))
             (mkProof 2) false eq_refl)).
Defined.

Lemma step_loop w a w' :
  step w a = Some w' ->
  loop w' = loop w \/ loop w = Running \/
  (exists event p', loop w = ParkedPropose event /\ dispatch (prover w) event = Some p') \/
  (exists pwh isValidProof p',
      loop w = ParkedSubmit pwh isValidProof /\ acquireSubmit (prover w) = Some p').
Proof.
  intros H. unfold step in H; cbv zeta in H.
  destruct a; destruct (loop w) eqn:El; try discriminate H; auto.
  - destruct (dispatch (prover w) event) eqn:Ed; [|discriminate H]. eauto 8.
  - destruct (acquireSubmit (prover w)) eqn:Ea; [|discriminate H]. eauto 10.
  - destruct (i <? length (provingJobs w))%nat; [|discriminate H].
    destruct (Chan.recv (proposeConcurrencyGuard (prover w))) as [[x g]|];
      [|discriminate H]. injection H as <-. left. simpl. auto.
  - destruct (i <? length (provingJobs w))%nat; [|discriminate H].
    destruct (Chan.recv (proposeConcurrencyGuard (prover w))) as [[x g]|];
      [|discriminate H]. injection H as <-. left. simpl. auto.
  - destruct (Chan.send (resultCh (prover w) isValidProof) pwh); [|discriminate H].
    injection H as <-. left. simpl. auto.
  - destruct (Chan.send (resultCh (prover w) isValidProof) pwh); [|discriminate H].
    injection H as <-. left. simpl. auto.
  - destruct (i <? length (submitJobs w))%nat; [|discriminate H].
    destruct (Chan.recv (submitProofConcurrencyGuard (prover w))) as [[x g]|];
      [|discriminate H]. injection H as <-. left. simpl. auto.
  - destruct (i <? length (submitJobs w))%nat; [|discriminate H].
    destruct (Chan.recv (submitProofConcurrencyGuard (prover w))) as [[x g]|];
      [|discriminate H]. injection H as <-. left. simpl. auto.
Qed.

Lemma no_place_no_send n w :
  GuardsCount n w -> n = 0%nat ->
  (forall event, dispatch (prover w) event = None) /\ acquireSubmit (prover w) = None.
Proof.
  intros (Hc1 & Hc2 & _) ->. split.
  - intros event. destruct (dispatch (prover w) event) eqn:E; [|reflexivity].
    apply dispatch_frame in E. destruct E as (_ & _ & _ & _ & _ & E & _).
    apply send_Some in E. lia.
  - destruct (acquireSubmit (prover w)) eqn:E; [|reflexivity].
    apply acquireSubmit_frame in E. destruct E as (_ & _ & _ & _ & _ & E & _).
    apply send_Some in E. lia.
Qed.

(** X11. With [MaxConcurrentProvingJobs = 0] both guards are channels
    without a place: along every schedule no proving job and no submission
    job is ever started, and once the event loop has parked on a guard, in
    [onBlockProposed] or in [submitProofOp], it stays parked there whatever
    happens afterwards. *)
Theorem no_place_no_job (env : InitEnv) (fuel : nat) (c : Config) (p : Prover)
        (sched : list action) :
  InitFromConfig env fuel c = Some (Ok p) ->
  MaxConcurrentProvingJobs c = 0%nat ->
  dispatched (trace (run (start p) sched)) = [] /\
  provingJobs (run (start p) sched) = [] /\
  submitJobs (run (start p) sched) = [] /\
  (forall sched',
      loop (run (start p) sched) <> Running ->
      loop (run (run (start p) sched) sched') = loop (run (start p) sched)).
Proof.
  intros Hinit Hzero.
  apply InitFromConfig_channels in Hinit. destruct Hinit as (_ & _ & _ & _ & Hg1 & Hg2).
  assert (G0 : GuardsCount 0 (start p)).
  { unfold GuardsCount, start. simpl. rewrite Hg1, Hg2, Hzero.
    unfold Chan.len. simpl. repeat split; lia. }
  assert (K : GuardsCount 0 (run (start p) sched) /\
              dispatched (trace (run (start p) sched)) = []).
  { apply (run_invariant (fun w => GuardsCount 0 w /\ dispatched (trace w) = [])).
    - intros w a w' [G D] H. split; [eapply step_GuardsCount; eauto|].
      destruct (step_shape w a w' H) as [(_ & _ & E & _) | (event & Hd & _)].
      + congruence.
      + rewrite (proj1 (no_place_no_send 0 w G eq_refl) event) in Hd. discriminate Hd.
    - split; [exact G0 | reflexivity]. }
  destruct K as [G D].
  split; [exact D|].
  pose proof G as (_ & _ & _ & _ & Hb1 & Hb2).
  split; [destruct (provingJobs (run (start p) sched)); [reflexivity | simpl in Hb1; lia]|].
  split; [destruct (submitJobs (run (start p) sched)); [reflexivity | simpl in Hb2; lia]|].
  intros sched' Hpark.
  set (w := run (start p) sched) in *.
  assert (K : GuardsCount 0 (run w sched') /\ loop (run w sched') = loop w).
  { apply (run_invariant (fun w1 => GuardsCount 0 w1 /\ loop w1 = loop w)).
    - intros w1 a w2 [G1 L1] H. split; [eapply step_GuardsCount; eauto|].
      destruct (no_place_no_send 0 w1 G1 eq_refl) as [Hnd Hna].
      destruct (step_loop w1 a w2 H)
        as [E | [E | [(event & p' & _ & E) | (pwh & v & p' & _ & E)]]].
      + congruence.
      + rewrite L1 in E. contradiction.
      + rewrite Hnd in E. discriminate E.
      + rewrite Hna in E. discriminate E.
    - split; [exact G | reflexivity]. }
  exact (proj2 K).
Qed.

(** No place in the guards: the first proposal parks the event loop, and no
    later trigger, proof or job exit gets it going again. *)
Lemma no_place_no_job_witness :
  loop (run (start (initialised scenario_a noPlaceConfig)) [Propose (proposal 1 10)])
  = ParkedPropose (proposal 1 10) /\
  loop (run (run (start (initialised scenario_a noPlaceConfig)) [Propose (proposal 1 10)])
            [ProvingJobExit 0; Unpark; Trigger; ProofProduced true (mkProof 1); Unpark])
  = ParkedPropose (proposal 1 10) /\
  dispatched (trace (run (start (initialised scenario_a noPlaceConfig))
                         [Propose (proposal 1 10)])) = [].
Proof.
  pose proof (no_place_no_job (quietInit scenario_a) 1 noPlaceConfig
                (initialised scenario_a noPlaceConfig) [Propose (proposal 1 10)]
                eq_refl eq_refl) as (H1 & _ & _ & H4).
  split; [reflexivity|]. split; [|exact H1].
  rewrite (H4 [ProvingJobExit 0; Unpark; Trigger; ProofProduced true (mkProof 1); Unpark]).
  - reflexivity.
  - discriminate.
Defined.

(** ** Triggers are not lost *)

(** Only the trigger cases and the [proveNotify] case of the event loop
    touch [proveNotify]. *)
Lemma step_proveNotify w a w' :
  step w a = Some w' ->
  proveNotify (prover w') = proveNotify (prover w) \/
  (a = Trigger /\ proveNotify (prover w') = Chan.try_send (proveNotify (prover w)) tt) \/
  a = SelectNotify.
Proof.
  intros H. unfold step in H; cbv zeta in H.
  destruct a; auto.
  - destruct (loop w) eqn:El; try discriminate H. injection H as <-. left. simpl.
    destruct (onBlockProposed_cases (prover w) event) as [[-> _] | (Hd & _)];
      [reflexivity|].
    apply dispatch_frame in Hd. destruct Hd as (_ & -> & _). reflexivity.
  - destruct (loop w) eqn:El; try discriminate H.
    + destruct (dispatch (prover w) event) eqn:Ed; [|discriminate H]. injection H as <-.
      left. frames. simpl. assumption.
    + destruct (acquireSubmit (prover w)) eqn:Ea; [|discriminate H]. injection H as <-.
      left. frames. simpl. assumption.
  - destruct (i <? length (provingJobs w))%nat; [|discriminate H].
    destruct (Chan.recv (proposeConcurrencyGuard (prover w))) as [[x g]|];
      [|discriminate H]. injection H as <-. left. reflexivity.
  - destruct (Chan.send (resultCh (prover w) isValidProof) pwh); [|discriminate H].
    injection H as <-. left. simpl.
    destruct (set_resultCh_frame (prover w) isValidProof t) as (_ & -> & _). reflexivity.
  - destruct (loop w) eqn:El; try discriminate H.
    destruct (Chan.recv (resultCh (prover w) isValidProof)) as [[x c]|];
      [|discriminate H]. injection H as <-. left.
    destruct (set_resultCh_frame (prover w) isValidProof c) as (_ & E & _).
    unfold submitProofOp.
    destruct (acquireSubmit (set_resultCh (prover w) isValidProof c)) eqn:Ea;
      simpl; frames; congruence.
  - destruct (i <? length (submitJobs w))%nat; [|discriminate H].
    destruct (Chan.recv (submitProofConcurrencyGuard (prover w))) as [[x g]|];
      [|discriminate H]. injection H as <-. left. reflexivity.
  - destruct (loop w) eqn:El; try discriminate H. injection H as <-.
    right. left. split; reflexivity.
  - destruct (loop w) eqn:El; try discriminate H. injection H as <-. left. reflexivity.
Qed.

Lemma run_token_kept sched : forall w,
  noSelectNotify sched = true ->
  NotifySlot (proveNotify (prover w)) ->
  Chan.len (proveNotify (prover w)) = 1%nat ->
  Chan.len (proveNotify (prover (run w sched))) = 1%nat.
Proof.
  induction sched as [|a rest IH]; intros w Hno Hslot Hone; simpl; [exact Hone|].
  simpl in Hno. apply andb_prop in Hno. destruct Hno as [Ha Hrest].
  destruct (step w a) as [w'|] eqn:E; [|apply IH; assumption].
  pose proof (step_NotifySlot w a w' Hslot E) as Hslot'.
  apply IH; [exact Hrest | exact Hslot' |].
  destruct (step_proveNotify w a w' E) as [-> | [[_ ->] | ->]].
  - exact Hone.
  - apply try_send_slot; [exact (proj1 Hslot) | unfold Chan.wf; destruct Hslot; lia].
  - discriminate Ha.
Qed.

Lemma Driver_run_token_kept sched : forall d,
  noSelectSync sched = true ->
  NotifySlot (Driver.syncNotify d) ->
  Chan.len (Driver.syncNotify d) = 1%nat ->
  Chan.len (Driver.syncNotify (Driver.run d sched)) = 1%nat.
Proof.
  induction sched as [|a rest IH]; intros d Hno Hslot Hone; simpl; [exact Hone|].
  simpl in Hno. apply andb_prop in Hno. destruct Hno as [Ha Hrest].
  destruct (Driver.step d a) as [d'|] eqn:E; [|apply IH; assumption].
  destruct a; simpl in E; try discriminate Ha.
  - destruct (Chan.send (Driver.l1HeadCh d) h); [|discriminate E].
    injection E as <-. apply IH; assumption.
  - destruct (Chan.recv (Driver.l1HeadCh d)) as [[x c]|]; [|discriminate E].
    injection E as <-.
    destruct (reqSync_slot (Driver.mkDriver c (Driver.syncNotify d)) Hslot) as [S1 S2].
    apply IH; assumption.
Qed.

(** X12. A trigger is not lost. Once the prover's event loop has handled a
    [blockProposedCh] or ticker case, [proveNotify] holds a token, and the
    token stays until the event loop itself takes it; once the driver's
    event loop has handled an L1 head, [syncNotify] holds a token until the
    event loop takes it. *)
Theorem trigger_not_lost (env : InitEnv) (fuel : nat) (c : Config) (p : Prover)
        (denv : Driver.InitEnv) (d : Driver.Driver)
        (sched sched' : list action) (dsched dsched' : list Driver.action) :
  InitFromConfig env fuel c = Some (Ok p) ->
  Driver.InitFromConfig denv = Ok d ->
  noSelectNotify sched' = true ->
  noSelectSync dsched' = true ->
  (loop (run (start p) sched) = Running ->
   Chan.len (proveNotify (prover (run (run (start p) sched) (Trigger :: sched')))) = 1%nat) /\
  (forall d', Driver.step (Driver.run d dsched) Driver.L1Head = Some d' ->
              Chan.len (Driver.syncNotify (Driver.run d' dsched')) = 1%nat).
Proof.
  intros Hp Hd Hno Hdno.
  apply InitFromConfig_channels in Hp. destruct Hp as (_ & Hn & _).
  apply Driver_InitFromConfig_channels in Hd.
  assert (Sp : NotifySlot (proveNotify (prover (run (start p) sched)))).
  { apply run_NotifySlot. simpl. rewrite Hn. apply NotifySlot_make. }
  assert (Sd : NotifySlot (Driver.syncNotify (Driver.run d dsched))).
  { apply Driver_run_NotifySlot. rewrite Hd. apply NotifySlot_make. }
  split.
  - intros Hl. set (w := run (start p) sched) in *.
    assert (E : step w Trigger
                = Some (mkWorld (reqProving (prover w)) Running (provingJobs w)
                                (submitJobs w) (trace w)))
      by (unfold step; rewrite Hl; reflexivity).
    change (run w (Trigger :: sched')) with
      (match step w Trigger with Some w' => run w' sched' | None => run w sched' end).
    rewrite E. destruct (reqProving_slot (prover w) Sp) as [S1 S2].
    apply run_token_kept; assumption.
  - intros d' E. simpl in E.
    destruct (Chan.recv (Driver.l1HeadCh (Driver.run d dsched))) as [[x ch]|];
      [|discriminate E].
    injection E as <-.
    destruct (reqSync_slot (Driver.mkDriver ch (Driver.syncNotify (Driver.run d dsched))) Sd)
      as [S1 S2].
    apply Driver_run_token_kept; assumption.
Qed.

(** A trigger followed by proposals, proofs and further triggers; a head
    followed by further heads. *)
Lemma trigger_not_lost_witness :
  Chan.len (proveNotify (prover
     (run (run (start (initialised scenario_a plainConfig)) [Trigger; SelectNotify])
          (Trigger :: [Propose (proposal 1 10); ProofProduced true (mkProof 1);
                       SelectProof true; Trigger])))) = 1%nat /\
  Chan.len (Driver.syncNotify
     (Driver.run
        (mkDriverAfterHead
           (Driver.run initialisedDriver [Driver.HeadArrives 1; Driver.HeadArrives 2]))
        [Driver.HeadArrives 3; Driver.L1Head])) = 1%nat.
Proof.
  destruct (trigger_not_lost (quietInit scenario_a) 1 plainConfig
              (initialised scenario_a plainConfig) quietDriverInit initialisedDriver
              [Trigger; SelectNotify]
              [Propose (proposal 1 10); ProofProduced true (mkProof 1);
               SelectProof true; Trigger]
              [Driver.HeadArrives 1; Driver.HeadArrives 2]
              [Driver.HeadArrives 3; Driver.L1Head]
              eq_refl eq_refl eq_refl eq_refl) as [H1 H2].
  split; [exact (H1 eq_refl) | exact (H2 _ eq_refl)].
Defined.

(** ** The cursor does not rewind *)

Lemma step_parked_event w a w' event :
  step w a = Some w' -> loop w' = ParkedPropose event ->
  loop w = ParkedPropose event \/ a = Propose event.
Proof.
  intros H. unfold step in H; cbv zeta in H.
  destruct a; destruct (loop w) eqn:El; try discriminate H.
  all: try solve
         [ repeat (match type of H with
                   | context [match ?x with _ => _ end] => destruct x eqn:?
                   end; try discriminate H);
           injection H as <-; simpl; (discriminate || auto) ].
  - injection H as <-. simpl.
    destruct (parked (onBlockProposed (prover w) event0)); intros [= ->]; auto.
  - destruct (Chan.recv (resultCh (prover w) isValidProof)) as [[x c]|];
      [|discriminate H]. injection H as <-. unfold submitProofOp.
    destruct (acquireSubmit (set_resultCh (prover w) isValidProof c)); simpl; discriminate.
Qed.

Lemma run_cursor_floor h sched : forall w,
  proposalsFrom h sched ->
  h <= l1Current (prover w) ->
  (forall event, loop w = ParkedPropose event -> h <= Raw_BlockNumber event) ->
  h <= l1Current (prover (run w sched)).
Proof.
  induction sched as [|a rest IH]; intros w Hall Hw Hpk; simpl; [exact Hw|].
  inversion Hall as [|? ? Ha Hrest]; subst.
  destruct (step w a) as [w'|] eqn:E; [|apply IH; assumption].
  apply IH; [exact Hrest | |].
  - destruct (step_shape w a w' E) as [(E1 & _) | (event & Hd & _ & _ & Hwhy)].
    + rewrite E1. exact Hw.
    + apply dispatch_frame in Hd. destruct Hd as (_ & _ & _ & _ & _ & _ & -> & _).
      destruct Hwhy as [[-> _] | [_ Hl]]; [exact Ha | exact (Hpk event Hl)].
  - intros event Hl.
    destruct (step_parked_event w a w' event E Hl) as [Hl0 | ->];
      [exact (Hpk event Hl0) | exact Ha].
Qed.

(** X13. The cursor does not rewind below the height a pass starts from: as
    long as the proposals delivered to [onBlockProposed] lie at or above an
    L1 height that [l1Current] has reached, [l1Current] stays at or above
    that height, whatever is dispatched, skipped or parked. *)
Theorem cursor_never_rewinds (p : Prover) (h : Z) (sched : list action) :
  h <= l1Current p ->
  proposalsFrom h sched ->
  h <= l1Current (prover (run (start p) sched)).
Proof.
  intros Hp Hall. apply run_cursor_floor; [exact Hall | exact Hp |].
  simpl. discriminate.
Qed.

Lemma cursor_never_rewinds_witness :
  100 <= l1Current (prover (run (start evenOnlyAt100)
                                [Propose (proposal 5 100); Propose (proposal 6 101);
                                 Trigger; Propose (proposal 8 103)])).
Proof.
  apply (cursor_never_rewinds evenOnlyAt100 100).
  - simpl. lia.
  - repeat constructor; simpl; lia.
Defined.

(** ** Jobs that end without a request *)



(** ** Pending proofs come first *)




(** ** The status report waits for the configuration *)

(** X16. [reportProtocolStatus] reads the protocol state only after
    [GetConfig] has succeeded: while every [GetConfig] call fails it stays
    in its retry, 10 s apart, logging nothing and not returning, however
    many ticks pass. *)
Theorem reportProtocolStatus_waits_for_config
        (getConfig : nat -> result Z) (ticks : list (result StateVariables)) :
  (forall n, exists code, getConfig n = Fail (Plain code)) ->
  forall fuel, Driver.reportProtocolStatus getConfig fuel ticks = None.
Proof.
  intros Hfail fuel. unfold Driver.reportProtocolStatus, Retry.
  rewrite RetryLoop_never_returns; [reflexivity|].
  intros n s. unfold Driver.readMaxNumBlocks.
  destruct (Hfail n) as [code ->]. exact I.
Qed.

Lemma reportProtocolStatus_waits_for_config_witness :
  Driver.reportProtocolStatus (fun _ => Fail (Plain 1)) 50 twoTicks = None.
Proof.
  exact (reportProtocolStatus_waits_for_config (fun _ => Fail (Plain 1)) twoTicks
           (fun _ => ex_intro _ 1%nat eq_refl) 50).
Defined.

(** ** Initialisation as a whole *)

Lemma initL1Current_from_source rpc p start h :
  WaitTillL2Synced rpc = None -> CursorSource rpc start h ->
  initL1Current rpc p start = (set_l1Current p h, None).
Proof.
  intros Hsync Hsrc. unfold initL1Current. rewrite Hsync.
  destruct Hsrc as [sv Hv Hz | sv o Hv Hnz Ho Hr | id o Ho Hr].
  - rewrite Hv, Hz. reflexivity.
  - rewrite Hv. destruct (Z.eqb_spec (LatestVerifiedId sv) 0); [contradiction|].
    rewrite Ho, Uint64_small by assumption. reflexivity.
  - rewrite Ho, Uint64_small by assumption. reflexivity.
Qed.

(** X17. [InitFromConfig] keeps calling [initL1Current] until it succeeds:
    after [k] failed attempts, at the first attempt at which L2 is synced
    and the reads succeed, the prover is returned with [l1Current] at the
    height those reads give, [lastHandledBlockID] at 0, empty channels and
    guards of capacity [MaxConcurrentProvingJobs]. *)
Theorem InitFromConfig_sets_cursor (env : InitEnv) (c : Config) (k fuel : nat) (h : Z) :
  NewClient env = None ->
  GetConfig env = None ->
  ctxErrAfter env = None ->
  Dummy c = true \/ NewZkevmRpcdProducer env = None ->
  (forall i, (i < k)%nat ->
             ctxErrAt env i = false /\
             retried (snd (initL1Current (rpcAt env i) (zeroProver c) (StartingBlockID c))) /\
             NewExponentialBackOff env i <> None) ->
  ctxErrAt env k = false ->
  WaitTillL2Synced (rpcAt env k) = None ->
  CursorSource (rpcAt env k) (StartingBlockID c) h ->
  (k < fuel)%nat ->
  InitFromConfig env fuel c
  = Some (Ok (mkProver c 0 0 h (Chan.make 1) (Chan.make chBufferSize)
                       (Chan.make chBufferSize)
                       (Chan.make (MaxConcurrentProvingJobs c))
                       (Chan.make (MaxConcurrentProvingJobs c)))).
Proof.
  intros Hnc Hgc Hafter Hprod Hfail Hctx Hsync Hsrc Hfuel.
  unfold InitFromConfig. rewrite Hnc, Hgc.
  set (p1 := set_proveNotify _ _).
  set (op := fun (n : nat) (q : Prover) =>
               if ctxErrAt env n then (q, None)
               else initL1Current (rpcAt env n) q (StartingBlockID c)).
  assert (Hop : forall i q, (i < k)%nat ->
                  retried (snd (op i q)) /\ fst (op i q) = q).
  { intros i q Hi. destruct (Hfail i Hi) as (H1 & H2 & _). unfold op. rewrite H1.
    rewrite (initL1Current_error_indep _ q (zeroProver c)). split; [exact H2|].
    destruct (snd (initL1Current (rpcAt env i) (zeroProver c) (StartingBlockID c)))
      as [err|] eqn:E; [|contradiction].
    apply (initL1Current_unchanged_on_error _ _ _ err).
    rewrite (initL1Current_error_indep _ q (zeroProver c)). exact E. }
  unfold Retry.
  rewrite (RetryLoop_ends op (NewExponentialBackOff env) k fuel 0%nat p1 [] None).
  - simpl. rewrite Hafter.
    rewrite (iterate_op_fixed op k 0%nat p1) by (intros i Hi; apply Hop; exact Hi).
    unfold op. rewrite Hctx.
    rewrite (initL1Current_from_source _ p1 _ h Hsync Hsrc). simpl.
    destruct Hprod as [-> | Hp]; [reflexivity|].
    destruct (Dummy c); [reflexivity | rewrite Hp; reflexivity].
  - intros i t Hi. simpl. split; [apply Hop; exact Hi | apply (Hfail i Hi)].
  - intros t. simpl. unfold op. rewrite Hctx.
    rewrite (initL1Current_from_source _ t _ h Hsync Hsrc). reflexivity.
  - left. intros H. exact H.
  - exact Hfuel.
Qed.

Lemma InitFromConfig_sets_cursor_witness :
  InitFromConfig syncedAtThird 5 plainConfig
  = Some (Ok (mkProver plainConfig 0 0 512 (Chan.make 1) (Chan.make chBufferSize)
                       (Chan.make chBufferSize) (Chan.make 2) (Chan.make 2))).
Proof.
  apply (InitFromConfig_sets_cursor syncedAtThird plainConfig 2 5 512
           eq_refl eq_refl eq_refl (or_intror eq_refl)).
  - intros i Hi. destruct i as [|[|i]]; [| |lia];
      (split; [reflexivity|]); (split; [exact I | discriminate]).
  - reflexivity.
  - reflexivity.
  - refine (FromLatestVerified scenario_b (mkVars 100 7 500 9) (mkL1Origin 512 0)
              eq_refl _ eq_refl _).
    + discriminate.
    + unfold U64.in_range, U64.modulus. simpl. lia.
  - exact (le_S 3 4 (le_S 3 3 (le_n 3))).
Defined.
